(** * Loom learning graph: unlock resolution, next-node selection and
      spaced-repetition scheduling ([src/learn.ts])

    A shallow embedding of the scheduling core of [learn.ts].

    Conventions of the embedding.
    - A JavaScript [number] that holds a familiarity, a stage, an interval
      or a time value is an integer [Z]; a time value that can be [NaN]
      (an Invalid Date) is an [option Z] with [None] for [NaN].
    - A [Date] is its time value, milliseconds since the epoch; the range
      limit of the host's [Date] is not represented.
    - Module [Js] is the scheduler without the two conventions above: a
      familiarity, a stage or an interval is an IEEE 754 binary64 value
      (a primitive float), so that [NaN], the infinities and fractions
      are inputs like any other, and a date outside the range of [Date]
      is invalid.
    - An optional field ([summary?: string]) is an [option]; JavaScript
      truthiness of such a field ([undefined] and the empty string are
      falsy) is written out by [truthy].
    - [new Date()] reads the clock: the instant is the explicit argument
      [now] of the functions that read it.
    - The host's [Date.prototype.toISOString], [Date] string parser and
      [String.prototype.toLowerCase] are parameters of the development
      (section [Host]); [isoString], [parseISO] and [asciiLower] are
      executable instances used to run the functions on concrete inputs.
    - [unlockEligibleNodes] mutates the records it is given, and reads them
      back through a [Map] that aliases them: the records live in a store
      (a list indexed by position) and the [Map] holds positions. Every
      position of the array is a record object of its own, the way
      [loadNodes] builds the array. *)

From stdpp Require Import gmap strings list fin_maps.
From Stdlib Require Import ZArith Lia Ascii.
From Stdlib Require Floats Uint63.

Open Scope string_scope.
Open Scope list_scope.
Open Scope Z_scope.

(** ** Data model *)

(** [LearnNode["status"]] *)
Inductive Status : Type :=
  | Locked
  | Available
  | InProgress
  | Mastered
  | Paused.

#[global] Instance Status_eq_dec : EqDecision Status.
Proof. solve_decision. Defined.

(** The strings the source uses for the statuses. *)
Definition statusString (s : Status) : string :=
  match s with
  | Locked => "locked"
  | Available => "available"
  | InProgress => "in-progress"
  | Mastered => "mastered"
  | Paused => "paused"
  end.

(** The [rating] argument of [scheduleReview]. *)
Inductive Rating : Type :=
  | Again
  | Hard
  | Good
  | Easy.

(** [LearnNode] *)
Record LearnNode : Type := mkNode {
  id : string;
  title : string;
  summary : option string;
  path : option string;
  type : option string;
  status : Status;
  tags : list string;
  prerequisites : list string;
  unlocks : list string;
  familiarity : Z;
  srsStage : Z;
  lastReviewed : option string;
  nextReview : option string;
  created : option string;
  updated : option string;
  body : string
}.

(** [NodeRecord]; the [raw] front matter is opaque to the three core
    functions, which only read and write [node], and is left out. *)
Record NodeRecord : Type := mkRecord {
  node : LearnNode;
  filePath : string;
  relativePath : string
}.

(** [NextNodeResult] *)
Record NextNodeResult : Type := mkResult {
  resultNode : option LearnNode;
  reason : option string
}.

(** [record.node.status = s] on one record object. *)
Definition setStatus (s : Status) (r : NodeRecord) : NodeRecord :=
  let n := node r in
  mkRecord
    (mkNode (id n) (title n) (summary n) (path n) (type n) s (tags n)
       (prerequisites n) (unlocks n) (familiarity n) (srsStage n)
       (lastReviewed n) (nextReview n) (created n) (updated n) (body n))
    (filePath r) (relativePath r).

(** Truthiness of an optional string: [undefined] and [""] are falsy. *)
Definition truthy (o : option string) : option string :=
  match o with
  | Some s => if decide (s = "") then None else Some s
  | None => None
  end.

(** Truthiness of an optional number: [undefined] and [0] are falsy. *)
Definition truthyNum (o : option Z) : option Z :=
  match o with
  | Some v => if decide (v = 0) then None else Some v
  | None => None
  end.

(** [arr[k]] for a number [k]: [undefined] below zero and past the end. *)
Definition at_index {A : Type} (arr : list A) (k : Z) : option A :=
  if decide (k < 0) then None else arr !! Z.to_nat k.

(** [clamp] *)
Definition clamp (value min max : Z) : Z :=
  Z.min max (Z.max min value).

Definition msPerDay : Z := 86400000.

(** ** Review scheduler *)

(** [familiarityDelta] of [scheduleReview]. *)
Definition familiarityDelta (rating : Rating) : Z :=
  match rating with
  | Again => -1
  | Hard => 0
  | Good => 1
  | Easy => 2
  end.

(** The [srsStage] written by [scheduleReview]. *)
Definition nextStage (rating : Rating) (stage maxStage : Z) : Z :=
  match rating with
  | Again => Z.max 0 (stage - 1)
  | Hard => clamp stage 0 maxStage
  | Good => clamp (stage + 1) 0 maxStage
  | Easy => clamp (stage + 2) 0 maxStage
  end.

(** [intervals[stage] || intervals[intervals.length - 1] || 1] *)
Definition intervalDays (intervals : list Z) (stage : Z) : Z :=
  match truthyNum (at_index intervals stage) with
  | Some d => d
  | None =>
      match truthyNum (at_index intervals (Z.of_nat (length intervals) - 1)) with
      | Some d => d
      | None => 1
      end
  end.

Section Host.

(** [Date.prototype.toISOString] on a time value. *)
Variable toISOString : Z -> string.
(** [new Date(s).getTime()]; [None] is [NaN]. *)
Variable parseDate : string -> option Z.

(** [scheduleReview]; [setUTCDate(getUTCDate() + d)] moves a time value
    by [d] whole days. *)
Definition scheduleReview (now : Z) (n : LearnNode) (rating : Rating)
    (intervals : list Z) (masteryThreshold : Z) : LearnNode :=
  let maxStage := Z.of_nat (length intervals) - 1 in
  let fam := clamp (familiarity n + familiarityDelta rating) 0 5 in
  let stage := nextStage rating (srsStage n) maxStage in
  let days := intervalDays intervals stage in
  let nextReviewTime := now + days * msPerDay in
  mkNode (id n) (title n) (summary n) (path n) (type n)
    (if decide (masteryThreshold <= fam) then Mastered else InProgress)
    (tags n) (prerequisites n) (unlocks n) fam stage
    (Some (toISOString now)) (Some (toISOString nextReviewTime))
    (created n) (updated n) (body n).

(** ** Next-node selector *)

(** The filter that builds [due]: a falsy [nextReview] is not due, and
    neither is one the host cannot read (a comparison with [NaN]). *)
Definition isDue (now : Z) (r : NodeRecord) : bool :=
  match truthy (nextReview (node r)) with
  | None => false
  | Some s =>
      match parseDate s with
      | Some t => bool_decide (t <= now)
      | None => false
      end
  end.

(** [new Date(a.node.nextReview || 0).getTime()] *)
Definition reviewTime (r : NodeRecord) : option Z :=
  match truthy (nextReview (node r)) with
  | Some s => parseDate s
  | None => Some 0
  end.

(** [a.node.created ? new Date(a.node.created).getTime() : 0] *)
Definition createdTime (r : NodeRecord) : option Z :=
  match truthy (created (node r)) with
  | Some s => parseDate s
  | None => Some 0
  end.

(** Subtraction of two time values; [NaN] is absorbing. *)
Definition numSub (a b : option Z) : option Z :=
  match a, b with
  | Some x, Some y => Some (x - y)
  | _, _ => None
  end.

(** The three comparators handed to [sort]. *)
Definition byNextReview (a b : NodeRecord) : option Z :=
  numSub (reviewTime a) (reviewTime b).

Definition byFamiliarityCreated (a b : NodeRecord) : option Z :=
  if decide (familiarity (node a) ≠ familiarity (node b))
  then Some (familiarity (node a) - familiarity (node b))
  else numSub (createdTime a) (createdTime b).

Definition byFamiliarity (a b : NodeRecord) : option Z :=
  Some (familiarity (node a) - familiarity (node b)).

End Host.

(** [Array.prototype.sort(comparefn)]. A comparator result of [NaN] counts
    as [0]. The sort is stable; for a consistent comparator every stable
    sort returns the same array, here by insertion from the right. *)
Definition sortCompare {A : Type} (comparefn : A -> A -> option Z) (a b : A) : Z :=
  default 0 (comparefn a b).

Fixpoint insertSorted {A : Type} (comparefn : A -> A -> option Z)
    (x : A) (l : list A) : list A :=
  match l with
  | [] => [x]
  | y :: ys =>
      if decide (sortCompare comparefn x y <= 0)
      then x :: y :: ys
      else y :: insertSorted comparefn x ys
  end.

Definition sort {A : Type} (comparefn : A -> A -> option Z) (l : list A) : list A :=
  foldr (insertSorted comparefn) [] l.

Section Selector.

Variable parseDate : string -> option Z.

(** [pickNextNode]; [selected] is element [0] of the sorted tier. *)
Definition pickNextNode (now : Z) (records : list NodeRecord) : NextNodeResult :=
  let unlocked := filter (fun r => status (node r) ≠ Locked) records in
  let due := filter (fun r => isDue parseDate now r = true) unlocked in
  match due with
  | _ :: _ =>
      mkResult (node <$> head (sort (byNextReview parseDate) due))
        (Some "due-review")
  | [] =>
      let available :=
        filter (fun r => status (node r) = Available) unlocked in
      match available with
      | _ :: _ =>
          mkResult
            (node <$> head (sort (byFamiliarityCreated parseDate) available))
            (Some "new-available")
      | [] =>
          let inProgress :=
            filter (fun r => status (node r) = InProgress) unlocked in
          match inProgress with
          | _ :: _ =>
              mkResult (node <$> head (sort byFamiliarity inProgress))
                (Some "continue")
          | [] => mkResult None None
          end
      end
  end.

End Selector.

(** ** Unlock resolver *)

(** [new Map(records.map((record) => [record.node.id, record]))]: the
    entries are set in order, so a later record replaces an earlier one
    that has the same id. The value is the position of the record object. *)
Fixpoint mapSetAll (m : gmap string nat) (i : nat) (records : list NodeRecord)
    : gmap string nat :=
  match records with
  | [] => m
  | r :: rs => mapSetAll (<[id (node r) := i]> m) (S i) rs
  end.

Definition byIdOf (records : list NodeRecord) : gmap string nat :=
  mapSetAll ∅ 0%nat records.

(** [byId.get(id)?.node], read from the store as it is when called. *)
Definition getNode (store : list NodeRecord) (byId : gmap string nat)
    (pid : string) : option LearnNode :=
  match byId !! pid with
  | Some j => node <$> store !! j
  | None => None
  end.

(** The callback of [prerequisites.every]. *)
Definition prereqMet (store : list NodeRecord) (byId : gmap string nat)
    (masteryThreshold : Z) (pid : string) : bool :=
  match getNode store byId pid with
  | None => false
  | Some prereq =>
      bool_decide (status prereq = Mastered)
      || bool_decide (masteryThreshold <= familiarity prereq)
  end.

(** One call of the [forEach] callback, on the record at position [i]:
    the state is the store and the [unlocked] array (positions pushed). *)
Definition unlockStep (byId : gmap string nat) (masteryThreshold : Z)
    (st : list NodeRecord * list nat) (i : nat) : list NodeRecord * list nat :=
  match st.1 !! i with
  | None => st
  | Some record =>
      if decide (status (node record) ≠ Locked) then st
      else if forallb (prereqMet st.1 byId masteryThreshold)
                (prerequisites (node record))
      then (<[i := setStatus Available record]> st.1, st.2 ++ [i])
      else st
  end.

(** [unlockEligibleNodes]: the store after the call, and the positions of
    the records in the returned array, in the order they were pushed. *)
Definition unlockEligibleNodes (records : list NodeRecord) (masteryThreshold : Z)
    : list NodeRecord * list nat :=
  foldl (unlockStep (byIdOf records) masteryThreshold) (records, [])
    (seq 0 (length records)).

(** The returned array as the caller reads it: the records, as mutated. *)
Definition unlockedRecords (records : list NodeRecord) (masteryThreshold : Z)
    : list NodeRecord :=
  let '(store, unlocked) := unlockEligibleNodes records masteryThreshold in
  omap (fun i => store !! i) unlocked.

(** The resolver in the words of the specification: every locked node is
    judged against the node states as they were before the call. *)
Definition snapshotUnlocks (snapshot : list NodeRecord) (masteryThreshold : Z)
    (r : NodeRecord) : bool :=
  bool_decide (status (node r) = Locked)
  && forallb (prereqMet snapshot (byIdOf snapshot) masteryThreshold)
       (prerequisites (node r)).

Definition snapshotUnlocksAt (snapshot : list NodeRecord) (masteryThreshold : Z)
    (i : nat) : bool :=
  match snapshot !! i with
  | Some r => snapshotUnlocks snapshot masteryThreshold r
  | None => false
  end.

(** What the call does to one record, judged on the snapshot. *)
Definition settle (snapshot : list NodeRecord) (masteryThreshold : Z)
    (r : NodeRecord) : NodeRecord :=
  if snapshotUnlocks snapshot masteryThreshold r then setStatus Available r else r.

Definition resolveSnapshot (snapshot : list NodeRecord) (masteryThreshold : Z)
    : list NodeRecord * list nat :=
  (settle snapshot masteryThreshold <$> snapshot,
   filter (fun i => snapshotUnlocksAt snapshot masteryThreshold i = true)
     (seq 0 (length snapshot))).

(** The state of the [forEach] loop once the first [k] records have been
    visited, as the snapshot reading has it: the store and the positions
    pushed so far. *)
Definition storeAfter (records : list NodeRecord) (masteryThreshold : Z)
    (k : nat) : list NodeRecord :=
  (settle records masteryThreshold <$> take k records) ++ drop k records.

Definition pushedAfter (records : list NodeRecord) (masteryThreshold : Z)
    (k : nat) : list nat :=
  filter (fun i => snapshotUnlocksAt records masteryThreshold i = true) (seq 0 k).

(** ** Node creation and loading *)

(** [NodeInput] *)
Module Input.
Record NodeInput : Type := mkInput {
  title : string;
  body : string;
  summary : option string;
  path : option string;
  type : option string;
  status : option string;
  tags : option (list string);
  prerequisites : option (list string);
  unlocks : option (list string);
  relativePath : option string;
  id : option string;
  overwrite : option bool
}.
End Input.

(** The front matter [data] that [buildNodeContents] hands to the
    serializer; [null] is [None]. *)
Module FrontMatter.
Record NodeData : Type := mkData {
  id : string;
  title : string;
  summary : option string;
  path : option string;
  type : string;
  status : string;
  tags : list string;
  prerequisites : list string;
  unlocks : list string;
  familiarity : Z;
  srs_stage : Z;
  last_reviewed : option string;
  next_review : option string;
  created : string;
  updated : string
}.
End FrontMatter.

(** A character of the class [[a-z0-9]]. *)
Definition isSlugChar (c : ascii) : bool :=
  let n := Z.of_N (N_of_ascii c) in
  bool_decide (97 <= n <= 122) || bool_decide (48 <= n <= 57).

(** [.replace(/[^a-z0-9]+/g, "-")]: every maximal run of other characters
    becomes one dash. [inRun] tells that the previous character was one. *)
Fixpoint dashRuns (inRun : bool) (cs : list ascii) : list ascii :=
  match cs with
  | [] => []
  | c :: rest =>
      if isSlugChar c then c :: dashRuns false rest
      else if inRun then dashRuns true rest
      else "-"%char :: dashRuns true rest
  end.

Fixpoint dropDashes (cs : list ascii) : list ascii :=
  match cs with
  | [] => []
  | c :: rest => if decide (c = "-"%char) then dropDashes rest else cs
  end.

(** [.replace(/^-+|-+$/g, "")] *)
Definition trimDashes (cs : list ascii) : list ascii :=
  reverse (dropDashes (reverse (dropDashes cs))).

Section Creation.

(** [String.prototype.toLowerCase] *)
Variable toLowerCase : string -> string.
Variable toISOString : Z -> string.

(** [slugify] *)
Definition slugify (value : string) : string :=
  String.string_of_list_ascii
    (take 80 (trimDashes (dashRuns false
                            (String.list_ascii_of_string (toLowerCase value))))).

(** The [data] object of [buildNodeContents], before it is serialized. *)
Definition buildNodeData (now : Z) (input : Input.NodeInput)
    : FrontMatter.NodeData :=
  let stamp := toISOString now in
  let pathSlug :=
    match truthy (Input.path input) with
    | Some p => slugify p
    | None => "general"
    end in
  let nodeSlug := slugify (Input.title input) in
  FrontMatter.mkData
    (default (pathSlug +:+ "/" +:+ nodeSlug) (truthy (Input.id input)))
    (Input.title input)
    (Input.summary input)
    (Input.path input)
    (default "concept" (truthy (Input.type input)))
    (default "available" (truthy (Input.status input)))
    (default [] (Input.tags input))
    (default [] (Input.prerequisites input))
    (default [] (Input.unlocks input))
    0 0 None None stamp stamp.

End Creation.

(** [normalizeStatus] *)
Definition normalizeStatus (status : option string) : Status :=
  match truthy status with
  | None => Available
  | Some s =>
      if decide (s = "locked") then Locked
      else if decide (s = "in-progress") then InProgress
      else if decide (s = "mastered") then Mastered
      else if decide (s = "paused") then Paused
      else Available
  end.

(** The [status] that [loadNodes] gives a node, from the [status] entry of
    its front matter and its prerequisites. *)
Definition loadedStatus (dataStatus : option string) (prereqs : list string)
    : Status :=
  normalizeStatus
    (Some (default (if decide (length prereqs = 0%nat) then "available"
                    else "locked")
             (truthy dataStatus))).

(** ** Executable instances of the host functions *)

Definition digitChar (d : Z) : ascii := ascii_of_N (48 + Z.to_N d).

(** The last [width] decimal digits of [n], zero padded. *)
Fixpoint padDigits (width : nat) (n : Z) : string :=
  match width with
  | O => ""
  | S w => padDigits w (n / 10) +:+ String (digitChar (n mod 10)) ""
  end.

(** Day number since the epoch to year, month, day (proleptic Gregorian). *)
Definition civilFromDays (days : Z) : Z * Z * Z :=
  let z := days + 719468 in
  let era := z / 146097 in
  let doe := z - era * 146097 in
  let yoe := (doe - doe / 1460 + doe / 36524 - doe / 146096) / 365 in
  let doy := doe - (365 * yoe + yoe / 4 - yoe / 100) in
  let mp := (5 * doy + 2) / 153 in
  let d := doy - (153 * mp + 2) / 5 + 1 in
  let m := if decide (mp < 10) then mp + 3 else mp - 9 in
  let y := yoe + era * 400 in
  (if decide (m <= 2) then y + 1 else y, m, d).

(** Year, month, day to the day number since the epoch. *)
Definition daysFromCivil (y m d : Z) : Z :=
  let y' := if decide (m <= 2) then y - 1 else y in
  let era := y' / 400 in
  let yoe := y' - era * 400 in
  let mp := if decide (2 < m) then m - 3 else m + 9 in
  let doy := (153 * mp + 2) / 5 + d - 1 in
  let doe := yoe * 365 + yoe / 4 - yoe / 100 + doy in
  era * 146097 + doe - 719468.

(** The time value of a UTC date and time of day. *)
Definition utc (y m d hh mm ss : Z) : Z :=
  daysFromCivil y m d * msPerDay + hh * 3600000 + mm * 60000 + ss * 1000.

(** [toISOString]: [YYYY-MM-DDTHH:mm:ss.sssZ], with a sign and six digits
    for a year outside 0..9999. *)
Definition isoString (t : Z) : string :=
  let '(y, m, d) := civilFromDays (t / msPerDay) in
  let ms := t mod msPerDay in
  let year :=
    if decide (0 <= y <= 9999) then padDigits 4 y
    else (if decide (y < 0) then "-" else "+") +:+ padDigits 6 (Z.abs y) in
  year +:+ "-" +:+ padDigits 2 m +:+ "-" +:+ padDigits 2 d +:+ "T"
  +:+ padDigits 2 (ms / 3600000) +:+ ":" +:+ padDigits 2 (ms / 60000 mod 60)
  +:+ ":" +:+ padDigits 2 (ms / 1000 mod 60) +:+ "." +:+ padDigits 3 (ms mod 1000)
  +:+ "Z".

Definition digitVal (c : ascii) : option Z :=
  let n := Z.of_N (N_of_ascii c) in
  if decide (48 <= n <= 57) then Some (n - 48) else None.

Fixpoint number (acc : Z) (cs : list ascii) : option Z :=
  match cs with
  | [] => Some acc
  | c :: rest =>
      match digitVal c with
      | Some d => number (acc * 10 + d) rest
      | None => None
      end
  end.

(** The decimal number written in the [len] characters from [start]. *)
Definition numberAt (cs : list ascii) (start len : nat) : option Z :=
  let field := take len (drop start cs) in
  if decide (length field = len) then number 0 field else None.

Definition charIs (cs : list ascii) (i : nat) (c : ascii) : bool :=
  bool_decide (cs !! i = Some c).

Definition daysInMonth (y m : Z) : Z :=
  daysFromCivil (if decide (m = 12) then y + 1 else y)
    (if decide (m = 12) then 1 else m + 1) 1
  - daysFromCivil y m 1.

(** A reader of the two forms [YYYY-MM-DD] and [YYYY-MM-DDTHH:mm:ss.sssZ];
    every other string is an Invalid Date here. *)
Definition parseISO (s : string) : option Z :=
  let cs := String.list_ascii_of_string s in
  match numberAt cs 0 4, numberAt cs 5 2, numberAt cs 8 2 with
  | Some y, Some m, Some d =>
      if charIs cs 4 "-" && charIs cs 7 "-"
         && bool_decide (1 <= m <= 12)
         && bool_decide (1 <= d <= daysInMonth y m)
      then
        if decide (length cs = 10%nat) then Some (utc y m d 0 0 0)
        else
          match numberAt cs 11 2, numberAt cs 14 2, numberAt cs 17 2,
                numberAt cs 20 3 with
          | Some hh, Some mm, Some ss, Some ms =>
              if bool_decide (length cs = 24%nat)
                 && charIs cs 10 "T" && charIs cs 13 ":" && charIs cs 16 ":"
                 && charIs cs 19 "." && charIs cs 23 "Z"
                 && bool_decide (hh < 24) && bool_decide (mm < 60)
                 && bool_decide (ss < 60)
              then Some (utc y m d hh mm ss + ms)
              else None
          | _, _, _, _ => None
          end
      else None
  | _, _, _ => None
  end.

(** White space of the ASCII range: tab, line feed, vertical tab, form
    feed, carriage return, space. *)
Definition isAsciiSpace (c : ascii) : bool :=
  let n := N_of_ascii c in
  bool_decide (9 <= n <= 13)%N || bool_decide (n = 32)%N.

Fixpoint dropSpaces (cs : list ascii) : list ascii :=
  match cs with
  | [] => []
  | c :: rest => if isAsciiSpace c then dropSpaces rest else cs
  end.

(** [trim] on strings whose white space is of the ASCII range. *)
Definition asciiTrim (s : string) : string :=
  String.string_of_list_ascii
    (reverse (dropSpaces (reverse (dropSpaces (String.list_ascii_of_string s))))).

(** Lower-casing of the letters [A]..[Z]. *)
Definition asciiLower (s : string) : string :=
  String.string_of_list_ascii
    (map (fun c => let n := N_of_ascii c in
                   if bool_decide (65 <= n <= 90)%N then ascii_of_N (n + 32) else c)
       (String.list_ascii_of_string s)).

(** ** Configuration *)

Definition DEFAULT_SRS_INTERVALS : list Z := [1; 3; 7; 14; 30; 60; 120; 240].

(** [LearnConfigInput] *)
Module ConfigInput.
Record LearnConfigInput : Type := mkConfigInput {
  libraryPath : option string;
  collectionName : option string;
  gitRemote : option string;
  gitBranch : option string;
  gitSync : option bool;
  gitAutoCommit : option bool;
  autoInstallQmd : option bool;
  mask : option string;
  masteryThreshold : option Z;
  srsIntervals : option (list Z)
}.
End ConfigInput.

(** [LearnConfig] *)
Module Config.
Record LearnConfig : Type := mkConfig {
  libraryPath : string;
  collectionName : string;
  gitRemote : option string;
  gitBranch : string;
  gitSync : bool;
  gitAutoCommit : bool;
  autoInstallQmd : bool;
  mask : string;
  masteryThreshold : Z;
  srsIntervals : list Z
}.
End Config.

(** [normalizeConfig]; [inl] is the message of the [Error] thrown. The
    string defaults use [||] (an empty string takes the default), the
    others [??] or, for the interval array, [||] on an array, which is
    always truthy: only a missing entry takes the default. *)
Definition normalizeConfig (input : ConfigInput.LearnConfigInput)
    : string + Config.LearnConfig :=
  match truthy (ConfigInput.libraryPath input) with
  | None => inl "libraryPath is required in plugin config"
  | Some libraryPath =>
      inr (Config.mkConfig
             libraryPath
             (default "learn" (truthy (ConfigInput.collectionName input)))
             (ConfigInput.gitRemote input)
             (default "main" (truthy (ConfigInput.gitBranch input)))
             (default false (ConfigInput.gitSync input))
             (default true (ConfigInput.gitAutoCommit input))
             (default true (ConfigInput.autoInstallQmd input))
             (default "**/*.md" (truthy (ConfigInput.mask input)))
             (default 4 (ConfigInput.masteryThreshold input))
             (default DEFAULT_SRS_INTERVALS (ConfigInput.srsIntervals input)))
  end.

(** A [LearnConfig] read as a [LearnConfigInput], of which it is a
    subtype. *)
Definition asConfigInput (c : Config.LearnConfig) : ConfigInput.LearnConfigInput :=
  ConfigInput.mkConfigInput
    (Some (Config.libraryPath c)) (Some (Config.collectionName c))
    (Config.gitRemote c) (Some (Config.gitBranch c)) (Some (Config.gitSync c))
    (Some (Config.gitAutoCommit c)) (Some (Config.autoInstallQmd c))
    (Some (Config.mask c)) (Some (Config.masteryThreshold c))
    (Some (Config.srsIntervals c)).

(** ** Comma-separated options *)

(** [value.split(sep)] for a one-character separator. *)
Fixpoint splitOn (sep : ascii) (cs : list ascii) : list (list ascii) :=
  match cs with
  | [] => [[]]
  | c :: rest =>
      if decide (c = sep) then [] :: splitOn sep rest
      else match splitOn sep rest with
           | seg :: segs => (c :: seg) :: segs
           | [] => [[c]]
           end
  end.

(** [entries.join(sep)] *)
Fixpoint joinWith (sep : ascii) (entries : list (list ascii)) : list ascii :=
  match entries with
  | [] => []
  | [e] => e
  | e :: rest => e ++ sep :: joinWith sep rest
  end.

Section Csv.

(** [String.prototype.trim] *)
Variable trim : string -> string.

(** [parseCsv] *)
Definition parseCsv (value : option string) : list string :=
  match truthy value with
  | None => []
  | Some v =>
      filter (fun entry => entry ≠ "")
        (trim <$> (String.string_of_list_ascii
                     <$> splitOn "," (String.list_ascii_of_string v)))
  end.

End Csv.

(** ** Git remotes *)

Fixpoint isPrefixOf (p l : list ascii) : bool :=
  match p, l with
  | [], _ => true
  | a :: p', b :: l' => bool_decide (a = b) && isPrefixOf p' l'
  | _ :: _, [] => false
  end.

(** [hay.includes(needle)] *)
Fixpoint includes (needle hay : list ascii) : bool :=
  isPrefixOf needle hay
  || match hay with
     | [] => false
     | _ :: rest => includes needle rest
     end.

(** [s.endsWith(suffix)] *)
Definition endsWith (suffix s : list ascii) : bool :=
  isPrefixOf (reverse suffix) (reverse s).

(** [looksLikeRemoteUrl] *)
Definition looksLikeRemoteUrl (value : string) : bool :=
  let cs := String.list_ascii_of_string value in
  includes (String.list_ascii_of_string "://") cs
  || endsWith (String.list_ascii_of_string ".git") cs
  || includes (String.list_ascii_of_string "@") cs.

(** [resolveGitRemote], on the remotes that [listGitRemotes] reports:
    [None] is [null]. *)
Definition resolveGitRemote (gitRemote : option string) (remotes : list string)
    : option string :=
  match truthy gitRemote with
  | Some g =>
      if bool_decide (g ∈ remotes) then Some g
      else if looksLikeRemoteUrl g
      then (if bool_decide ("origin" ∈ remotes) then Some "origin" else None)
      else if bool_decide ("origin" ∈ remotes) then Some "origin"
      else truthy (head remotes)
  | None =>
      if bool_decide ("origin" ∈ remotes) then Some "origin"
      else truthy (head remotes)
  end.

(** ** Front matter of a node file *)

(** The [data] of a parsed node file, with every entry of the declared
    type or missing ([undefined] and [null] are [None]); [others] are the
    entries that the core does not read. *)
Module Raw.
Record Data : Type := mkRaw {
  id : option string;
  title : option string;
  summary : option string;
  path : option string;
  type : option string;
  status : option string;
  tags : option (list string);
  prerequisites : option (list string);
  unlocks : option (list string);
  familiarity : option Z;
  srs_stage : option Z;
  last_reviewed : option string;
  next_review : option string;
  created : option string;
  updated : option string;
  others : list (string * string)
}.
End Raw.

(** [normalizeFamiliarity] *)
Definition normalizeFamiliarity (value : option Z) : Z :=
  match value with
  | Some v => clamp v 0 5
  | None => 0
  end.

Section Files.

Variable toLowerCase : string -> string.
(** [path.basename] and [path.dirname] *)
Variable basename : string -> string.
Variable dirname : string -> string.
(** [String.prototype.trim] *)
Variable trim : string -> string.

(** The [node] that [loadNodes] builds from one file: its front matter,
    its content and its path. *)
Definition loadNode (data : Raw.Data) (content filePath : string) : LearnNode :=
  let title := default (basename filePath) (truthy (Raw.title data)) in
  let nodeSlug := slugify toLowerCase title in
  let pathValue := default (basename (dirname filePath)) (truthy (Raw.path data)) in
  let id := default (slugify toLowerCase pathValue +:+ "/" +:+ nodeSlug)
              (truthy (Raw.id data)) in
  let prerequisites := default [] (Raw.prerequisites data) in
  let unlocks := default [] (Raw.unlocks data) in
  mkNode id title (Raw.summary data) (Raw.path data) (Raw.type data)
    (loadedStatus (Raw.status data) prerequisites)
    (default [] (Raw.tags data)) prerequisites unlocks
    (normalizeFamiliarity (Raw.familiarity data))
    (default 0 (Raw.srs_stage data))
    (truthy (Raw.last_reviewed data)) (truthy (Raw.next_review data))
    (Raw.created data) (Raw.updated data) (trim content).

End Files.

(** The [data] and the [body] that [saveNode] serializes, from the [raw]
    front matter and the body of the record, the node and the instant of
    the write. *)
Definition saveNodeData (toISOString : Z -> string) (now : Z) (raw : Raw.Data)
    (recordBody : string) (n : LearnNode) : Raw.Data * string :=
  let stamp := toISOString now in
  (Raw.mkRaw (Some (id n)) (Some (title n)) (summary n) (path n) (type n)
     (Some (statusString (status n))) (Some (tags n)) (Some (prerequisites n))
     (Some (unlocks n)) (Some (familiarity n)) (Some (srsStage n))
     (truthy (lastReviewed n)) (truthy (nextReview n))
     (Some (default (default stamp (truthy (Raw.created raw)))
              (truthy (created n))))
     (Some stamp) (Raw.others raw),
   default (default "" (truthy (Some recordBody))) (truthy (Some (body n)))).

(** ** Callers of the core *)

(** The [rating] as it reaches [scheduleReview] at run time: a string,
    of which every one but the first three takes the last branch. *)
Definition ratingOfString (rating : string) : Rating :=
  if decide (rating = "again") then Again
  else if decide (rating = "hard") then Hard
  else if decide (rating = "good") then Good
  else Easy.

(** [reviewNode], between loading and saving: [inl] is the message of the
    [Error] thrown. *)
Definition reviewNode (toISOString : Z -> string) (now : Z)
    (records : list NodeRecord) (intervals : list Z) (masteryThreshold : Z)
    (nodeId rating : string) : string + LearnNode :=
  match list_find (fun item => id (node item) = nodeId) records with
  | None => inl ("Node " +:+ nodeId +:+ " not found")
  | Some (_, record) =>
      inr (scheduleReview toISOString now (node record) (ratingOfString rating)
             intervals masteryThreshold)
  end.

(** The records with their positions in the array. *)
Definition positions (records : list NodeRecord) : list (nat * NodeRecord) :=
  imap (fun i r => (i, r)) records.

(** [pickNextNode], telling which record object it selected: the position
    of [selected] in [records] and the reason. *)
Definition pickNextPos (parseDate : string -> option Z) (now : Z)
    (records : list NodeRecord) : option nat * option string :=
  let unlocked := filter (fun p => status (node p.2) ≠ Locked) (positions records) in
  let due := filter (fun p => isDue parseDate now p.2 = true) unlocked in
  match due with
  | _ :: _ =>
      (fst <$> head (sort (fun a b => byNextReview parseDate a.2 b.2) due),
       Some "due-review")
  | [] =>
      let available := filter (fun p => status (node p.2) = Available) unlocked in
      match available with
      | _ :: _ =>
          (fst <$> head (sort (fun a b => byFamiliarityCreated parseDate a.2 b.2)
                           available),
           Some "new-available")
      | [] =>
          let inProgress :=
            filter (fun p => status (node p.2) = InProgress) unlocked in
          match inProgress with
          | _ :: _ =>
              (fst <$> head (sort (fun a b => byFamiliarity a.2 b.2) inProgress),
               Some "continue")
          | [] => (None, None)
          end
      end
  end.

(** What [pickNode] returns. *)
Record PickResult : Type := mkPick {
  pickedNode : option LearnNode;
  pickedReason : option string;
  pickedUnlocked : list string
}.

(** [pickNode], between loading and saving: the store it leaves and the
    object it returns. [result.node] is the node object of the selected
    record, so the caller reads it as mutated by the [start] step. *)
Definition pickNode (parseDate : string -> option Z) (now : Z)
    (records : list NodeRecord) (masteryThreshold : Z) (start : bool)
    : list NodeRecord * PickResult :=
  let '(store, unlocked) := unlockEligibleNodes records masteryThreshold in
  let '(pos, why) := pickNextPos parseDate now store in
  let started :=
    match pos ≫= (fun p => store !! p) with
    | Some selected =>
        if start then
          match list_find (fun item => id (node item) = id (node selected)) store with
          | Some (j, record) =>
              if decide (status (node record) = Available)
              then <[j := setStatus InProgress record]> store
              else store
          | None => store
          end
        else store
    | None => store
    end in
  (started,
   mkPick (pos ≫= (fun p => node <$> started !! p)) why
     (omap (fun i => (fun r => id (node r)) <$> started !! i) unlocked)).

(** ** The scheduler over JavaScript numbers

    [loadNodes] hands the scheduler whatever number the front matter
    holds ([typeof data.srs_stage === "number"]), and the interval table
    is an array of numbers: [NaN], an infinity or a fraction can reach
    [scheduleReview]. Module [Js] is [scheduleReview] once more, with
    every [number] an IEEE 754 binary64 value, the range limit of [Date]
    and the [RangeError] of [toISOString] on an Invalid Date; it is the
    model for the statements that such numbers decide. *)
Module Js.

Import PrimFloat SpecFloat FloatOps.

(** [LearnNode] *)
Record LearnNode : Type := mkNode {
  id : string;
  title : string;
  summary : option string;
  path : option string;
  type : option string;
  status : Status;
  tags : list string;
  prerequisites : list string;
  unlocks : list string;
  familiarity : float;
  srsStage : float;
  lastReviewed : option string;
  nextReview : option string;
  created : option string;
  updated : option string;
  body : string
}.

(** [Math.max] of two numbers: [NaN] when either is, and [+0] above [-0]. *)
Definition mathMax (a b : float) : float :=
  if is_nan a || is_nan b then nan
  else if (a <? b)%float then b
  else if (b <? a)%float then a
  else if get_sign a then b else a.

(** [Math.min] of two numbers: [NaN] when either is, and [-0] below [+0]. *)
Definition mathMin (a b : float) : float :=
  if is_nan a || is_nan b then nan
  else if (a <? b)%float then a
  else if (b <? a)%float then b
  else if get_sign b then b else a.

(** [clamp] *)
Definition clamp (value min max : float) : float :=
  mathMin max (mathMax min value).

(** The number that an integer is, as for [intervals.length - 1] and the
    result of [getUTCDate]. *)
Definition ofZ (z : Z) : float :=
  if decide (z < 0) then (- of_uint63 (Uint63.of_Z (- z)))%float
  else of_uint63 (Uint63.of_Z z).

(** [ToIntegerOrInfinity] of a finite number: its integer part; [None]
    for [NaN] and the infinities. *)
Definition truncate (x : float) : option Z :=
  match Prim2SF x with
  | S754_zero _ => Some 0
  | S754_finite s m e =>
      Some (cond_Zopp s (if decide (0 <= e) then Z.pos m * 2 ^ e
                         else Z.pos m / 2 ^ (- e)))
  | _ => None
  end.

(** The integer that a number is, if it is one ([-0] is 0). *)
Definition exactZ (x : float) : option Z :=
  match Prim2SF x with
  | S754_zero _ => Some 0
  | S754_finite s m e =>
      if decide (0 <= e) then Some (cond_Zopp s (Z.pos m * 2 ^ e))
      else if decide (Z.pos m mod 2 ^ (- e) = 0)
           then Some (cond_Zopp s (Z.pos m / 2 ^ (- e)))
           else None
  | _ => None
  end.

(** [arr[x]] for a number [x]: an element when [x] is an integer inside
    the array, [undefined] otherwise. *)
Definition element {A : Type} (arr : list A) (x : float) : option A :=
  match exactZ x with
  | Some k =>
      if decide (0 <= k < Z.of_nat (length arr)) then arr !! Z.to_nat k else None
  | None => None
  end.

(** Truthiness of an optional number: [undefined], [0], [-0] and [NaN]
    are falsy. *)
Definition truthyNum (o : option float) : option float :=
  match o with
  | Some v => if is_nan v || is_zero v then None else Some v
  | None => None
  end.

(** [familiarityDelta] of [scheduleReview]. *)
Definition familiarityDelta (rating : Rating) : float :=
  match rating with
  | Again => (-1)%float
  | Hard => 0%float
  | Good => 1%float
  | Easy => 2%float
  end.

(** The [srsStage] written by [scheduleReview]. *)
Definition nextStage (rating : Rating) (stage maxStage : float) : float :=
  match rating with
  | Again => mathMax 0 (stage - 1)
  | Hard => clamp stage 0 maxStage
  | Good => clamp (stage + 1) 0 maxStage
  | Easy => clamp (stage + 2) 0 maxStage
  end.

(** [intervals[stage] || intervals[intervals.length - 1] || 1] *)
Definition intervalDays (intervals : list float) (stage : float) : float :=
  match truthyNum (element intervals stage) with
  | Some d => d
  | None =>
      match truthyNum (element intervals (ofZ (Z.of_nat (length intervals) - 1))) with
      | Some d => d
      | None => 1%float
      end
  end.

(** The largest time value of a [Date]. *)
Definition maxTime : Z := 8640000000000000.

(** [TimeClip]; [None] is [NaN], the time value of an Invalid Date. *)
Definition timeClip (tv : Z) : option Z :=
  if decide (- maxTime <= tv <= maxTime) then Some tv else None.

(** [getUTCDate]: the day of the month of a time value. *)
Definition getUTCDate (t : Z) : Z := (civilFromDays (t / msPerDay)).2.

(** [setUTCDate(date)] on the time value [t]: day [date], counted from
    the first of the month of [t] and truncated to an integer, at the time
    of day of [t]. *)
Definition setUTCDate (t : Z) (date : float) : option Z :=
  match truncate date with
  | Some dt => timeClip ((t / msPerDay - getUTCDate t + dt) * msPerDay + t mod msPerDay)
  | None => None
  end.

(** [scheduleReview]; [None] is the [RangeError] that [toISOString]
    throws when the new date is invalid. *)
Definition scheduleReview (toISOString : Z -> string) (now : Z) (n : LearnNode)
    (rating : Rating) (intervals : list float) (masteryThreshold : float)
    : option LearnNode :=
  let maxStage := ofZ (Z.of_nat (length intervals) - 1) in
  let fam := clamp (familiarity n + familiarityDelta rating) 0 5 in
  let stage := nextStage rating (srsStage n) maxStage in
  let days := intervalDays intervals stage in
  match setUTCDate now (ofZ (getUTCDate now) + days) with
  | Some nextReviewTime =>
      Some (mkNode (id n) (title n) (summary n) (path n) (type n)
              (if (masteryThreshold <=? fam)%float then Mastered else InProgress)
              (tags n) (prerequisites n) (unlocks n) fam stage
              (Some (toISOString now)) (Some (toISOString nextReviewTime))
              (created n) (updated n) (body n))
  | None => None
  end.

(** A node in progress with the given familiarity and stage. *)
Definition sampleNode (fam stage : float) : LearnNode :=
  mkNode "nix/store" "Nix store" None None None InProgress [] [] [] fam stage
    None None None None "".

Definition sampleIntervals : list float := [1; 3; 7; 14]%float.

End Js.

(** The node over numbers that a node over integers is. *)
Definition numbersOf (n : LearnNode) : Js.LearnNode :=
  Js.mkNode (id n) (title n) (summary n) (path n) (type n) (status n) (tags n)
    (prerequisites n) (unlocks n) (Js.ofZ (familiarity n)) (Js.ofZ (srsStage n))
    (lastReviewed n) (nextReview n) (created n) (updated n) (body n).

(** The fields that [scheduleReview] writes are, in [m], the numbers and
    strings that they are in [n]. *)
Definition sameReview (m : Js.LearnNode) (n : LearnNode) : bool :=
  bool_decide (Js.exactZ (Js.familiarity m) = Some (familiarity n))
  && bool_decide (Js.exactZ (Js.srsStage m) = Some (srsStage n))
  && bool_decide (Js.status m = status n)
  && bool_decide (Js.lastReviewed m = lastReviewed n)
  && bool_decide (Js.nextReview m = nextReview n).

(** The two models of [scheduleReview] give the same review of [n]. *)
Definition modelsAgree (now : Z) (intervals : list Z) (masteryThreshold : Z)
    (rating : Rating) (n : LearnNode) : bool :=
  match Js.scheduleReview isoString now (numbersOf n) rating (Js.ofZ <$> intervals)
          (Js.ofZ masteryThreshold) with
  | Some m => sameReview m (scheduleReview isoString now n rating intervals masteryThreshold)
  | None => false
  end.

(** ** Vocabulary of the statements *)

(** No two dashes in a row. *)
Fixpoint singleDashes (cs : list ascii) : Prop :=
  match cs with
  | [] => True
  | a :: rest =>
      ~ (a = "-"%char /\ head rest = Some "-"%char) /\ singleDashes rest
  end.

(** The position of the last record of [records] whose id is [pid]. *)
Fixpoint lastPos (pid : string) (records : list NodeRecord) : option nat :=
  match records with
  | [] => None
  | r :: rest =>
      match lastPos pid rest with
      | Some j => Some (S j)
      | None => if decide (id (node r) = pid) then Some 0%nat else None
      end
  end.

(** [pid] resolves to [p] in [records]: [p] is the record with that id, the
    last one if several records share it. *)
Definition resolves (records : list NodeRecord) (pid : string) (p : NodeRecord)
    : Prop :=
  exists j : nat,
    records !! j = Some p /\ id (node p) = pid
    /\ forall (k : nat) (q : NodeRecord),
         (j < k)%nat -> records !! k = Some q -> id (node q) <> pid.

(** A prerequisite id is satisfied in a collection. *)
Definition prereqSatisfied (records : list NodeRecord) (masteryThreshold : Z)
    (pid : string) : Prop :=
  exists p : NodeRecord,
    resolves records pid p
    /\ (status (node p) = Mastered \/ masteryThreshold <= familiarity (node p)).

(** [r] is not locked and has a [nextReview] that reads as the instant
    [t], not after [now]. *)
Definition dueAt (parseDate : string -> option Z) (now : Z) (r : NodeRecord)
    (t : Z) : Prop :=
  status (node r) <> Locked
  /\ exists s, truthy (nextReview (node r)) = Some s
               /\ parseDate s = Some t /\ t <= now.




(** [r'] is [r], or [r] unlocked. *)
Definition unlockedFrom (r r' : NodeRecord) : Prop :=
  r' = r \/ (status (node r) = Locked /\ r' = setStatus Available r).

(** ** Sample data *)

(** A node that has only the fields the scheduler reads filled in. *)
Definition sampleNode (name : string) (st : Status) (fam stage : Z) : LearnNode :=
  mkNode name name None None None st [] [] [] fam stage None None None None "".

(** The instant of the end-to-end scenarios, 2024-01-01T00:00:00Z. *)
Definition newYear2024 : Z := utc 2024 1 1 0 0 0.

Definition sampleRecord (n : LearnNode) : NodeRecord :=
  mkRecord n ("/library/nodes/" +:+ id n +:+ ".md") ("nodes/" +:+ id n +:+ ".md").

Definition withPrerequisites (prereqs : list string) (n : LearnNode) : LearnNode :=
  mkNode (id n) (title n) (summary n) (path n) (type n) (status n) (tags n)
    prereqs (unlocks n) (familiarity n) (srsStage n) (lastReviewed n)
    (nextReview n) (created n) (updated n) (body n).

Definition withNextReview (stamp : string) (n : LearnNode) : LearnNode :=
  mkNode (id n) (title n) (summary n) (path n) (type n) (status n) (tags n)
    (prerequisites n) (unlocks n) (familiarity n) (srsStage n) (lastReviewed n)
    (Some stamp) (created n) (updated n) (body n).

Definition withCreated (stamp : string) (n : LearnNode) : LearnNode :=
  mkNode (id n) (title n) (summary n) (path n) (type n) (status n) (tags n)
    (prerequisites n) (unlocks n) (familiarity n) (srsStage n) (lastReviewed n)
    (nextReview n) (Some stamp) (updated n) (body n).

(** Scenario 2: A is mastered, B is locked behind A. *)
Definition recordA : NodeRecord := sampleRecord (sampleNode "A" Mastered 0 0).
Definition recordB : NodeRecord :=
  sampleRecord (withPrerequisites ["A"] (sampleNode "B" Locked 0 0)).

(** A chain: P has no prerequisites, Q waits for P, both locked. *)
Definition recordP : NodeRecord := sampleRecord (sampleNode "P" Locked 0 0).
Definition recordQ : NodeRecord :=
  sampleRecord (withPrerequisites ["P"] (sampleNode "Q" Locked 0 0)).

(** Scenario 5: D is available, E is in progress with lower familiarity. *)
Definition recordD : NodeRecord :=
  sampleRecord (withCreated "2023-01-01" (sampleNode "D" Available 1 0)).
Definition recordE : NodeRecord := sampleRecord (sampleNode "E" InProgress 0 0).

(** Two reviews due before 2024-01-01 and a fresh available node. *)
Definition recordLate : NodeRecord :=
  sampleRecord (withNextReview "2023-12-30T00:00:00.000Z"
                  (sampleNode "late" InProgress 3 2)).
Definition recordFresh : NodeRecord := sampleRecord (sampleNode "fresh" Available 0 0).
Definition recordEarly : NodeRecord :=
  sampleRecord (withNextReview "2023-12-20T00:00:00.000Z"
                  (sampleNode "early" Mastered 5 3)).

Definition recordJune : NodeRecord :=
  sampleRecord (withCreated "2023-06-01" (sampleNode "june" Available 1 0)).
Definition recordUndated : NodeRecord :=
  sampleRecord (sampleNode "undated" Available 1 0).

(** Nodes in progress that differ in familiarity. *)
Definition recordDeep : NodeRecord := sampleRecord (sampleNode "deep" InProgress 3 2).
Definition recordShallow : NodeRecord :=
  sampleRecord (sampleNode "shallow" InProgress 1 1).
Definition recordShallowToo : NodeRecord :=
  sampleRecord (sampleNode "shallow-too" InProgress 1 1).

(** A new node that names a prerequisite and no status. *)
Definition inputWithPrerequisite : Input.NodeInput :=
  Input.mkInput "Nix derivations" "" None (Some "nix") None None None
    (Some ["nix/store-basics"]) None None None None.

(** * Properties *)

(** ** Host instances on the instants used below *)

Example isoString_newYear2024 : isoString newYear2024 = "2024-01-01T00:00:00.000Z".
Proof. reflexivity. Qed.

Example isoString_before_epoch : isoString (-1) = "1969-12-31T23:59:59.999Z".
Proof. reflexivity. Qed.

Example parseISO_isoString_leap_day :
  parseISO (isoString (utc 2024 2 29 23 59 59 + 999))
  = Some (utc 2024 2 29 23 59 59 + 999).
Proof. vm_compute. reflexivity. Qed.

Example parseISO_date_only : parseISO "2023-01-01" = Some (utc 2023 1 1 0 0 0).
Proof. vm_compute. reflexivity. Qed.

Example slugify_title : slugify asciiLower "Nix Derivations" = "nix-derivations".
Proof. vm_compute. reflexivity. Qed.

Example slugify_trims : slugify asciiLower "  German: Akkusativ!  " = "german-akkusativ".
Proof. vm_compute. reflexivity. Qed.

(** ** Review scheduler *)

Lemma clamp_bounds (value lo hi : Z) : lo <= hi -> lo <= clamp value lo hi <= hi.
Proof. unfold clamp. lia. Qed.

(** The three ratings that go through [clamp] keep the stage inside the
    interval table. *)
Lemma nextStage_clamped (rating : Rating) (stage maxStage : Z) :
  rating <> Again -> 0 <= maxStage ->
  0 <= nextStage rating stage maxStage <= maxStage.
Proof.
  intros Hr Hmax. destruct rating; [congruence | | |]; simpl;
    apply clamp_bounds; lia.
Qed.

(** [again] has a floor but no ceiling: the stage stays in range only when
    it started at most one past the end. *)
Lemma nextStage_again (stage maxStage : Z) :
  0 <= maxStage ->
  (0 <= nextStage Again stage maxStage <= maxStage <-> stage <= maxStage + 1).
Proof. simpl. lia. Qed.

Lemma intervalDays_in_range (intervals : list Z) (k : nat) (d : Z) :
  intervals !! k = Some d -> d <> 0 -> intervalDays intervals (Z.of_nat k) = d.
Proof.
  intros Hk Hd. unfold intervalDays, at_index.
  destruct (decide (Z.of_nat k < 0)) as [Hneg|_]; [lia|].
  rewrite Nat2Z.id, Hk. simpl. destruct (decide (d = 0)); [contradiction | reflexivity].
Qed.

Section SchedulerFacts.

Variable toISOString : Z -> string.

(** Every field the scheduler does not write is copied from the input. *)
Lemma scheduleReview_copies now n rating intervals masteryThreshold :
  let next := scheduleReview toISOString now n rating intervals masteryThreshold in
  id next = id n /\ title next = title n /\ prerequisites next = prerequisites n
  /\ unlocks next = unlocks n /\ created next = created n /\ body next = body n.
Proof. simpl. repeat split. Qed.

Lemma scheduleReview_familiarity_bounds now n rating intervals masteryThreshold :
  0 <= familiarity (scheduleReview toISOString now n rating intervals masteryThreshold) <= 5.
Proof. simpl. apply clamp_bounds. lia. Qed.

(** With a non-empty interval table, [hard], [good] and [easy] leave the
    stage inside the table, whatever it was. *)
Lemma scheduleReview_stage_clamped now n rating intervals masteryThreshold :
  rating <> Again -> intervals <> [] ->
  0 <= srsStage (scheduleReview toISOString now n rating intervals masteryThreshold)
    <= Z.of_nat (length intervals) - 1.
Proof.
  intros Hr Hne. simpl. apply nextStage_clamped; [assumption|].
  destruct intervals; [congruence | simpl; lia].
Qed.

(** C4: the status written by a review is [mastered] when the updated
    familiarity reaches the threshold and [in-progress] otherwise,
    whatever the status was before (so two reviews that end with the same
    familiarity under the same threshold end with the same status), and
    both review timestamps are always written: [lastReviewed] is the
    instant of the review and [nextReview] lies the chosen number of days
    after it. *)
Theorem scheduleReview_status_and_timestamps :
  forall (now : Z) (n : LearnNode) (rating : Rating) (intervals : list Z)
         (masteryThreshold : Z),
    let next := scheduleReview toISOString now n rating intervals masteryThreshold in
    status next
    = (if decide (masteryThreshold <= familiarity next) then Mastered else InProgress)
    /\ (forall now' n' rating' intervals',
          let next' := scheduleReview toISOString now' n' rating' intervals'
                         masteryThreshold in
          familiarity next' = familiarity next -> status next' = status next)
    /\ lastReviewed next = Some (toISOString now)
    /\ nextReview next
       = Some (toISOString (now + intervalDays intervals (srsStage next) * msPerDay)).
Proof.
  intros now n rating intervals thr. simpl.
  repeat split.
  intros now' n' rating' intervals' Heq. rewrite Heq. reflexivity.
Qed.

End SchedulerFacts.

(** ** Review scheduler over JavaScript numbers *)

Section NumberFacts.

Import PrimFloat SpecFloat FloatOps FloatAxioms.

(** *** Rounding keeps the sign *)

Lemma shr_1_nonneg (mrs : shr_record) : 0 <= shr_m mrs -> 0 <= shr_m (shr_1 mrs).
Proof.
  destruct mrs as [m r s]. simpl. intros Hm.
  destruct m as [|p|p]; [simpl; lia | destruct p; simpl; lia | lia].
Qed.

Lemma iter_pos_keeps {A : Type} (P : A -> Prop) (f : A -> A) :
  (forall x, P x -> P (f x)) -> forall n x, P x -> P (iter_pos f n x).
Proof.
  intros Hf. induction n as [n IH|n IH|]; intros x Hx; simpl; auto.
Qed.

Lemma shr_fexp_nonneg (prec emax m e : Z) (l : location) :
  0 <= m -> 0 <= shr_m (fst (shr_fexp prec emax m e l)).
Proof.
  intros Hm. unfold shr_fexp, shr.
  assert (H0 : 0 <= shr_m (shr_record_of_loc m l)).
  { destruct l as [|[]]; simpl; assumption. }
  destruct (fexp prec emax (Zdigits2 m + e) - e) as [|p|p]; simpl; try assumption.
  apply (iter_pos_keeps (fun mrs => 0 <= shr_m mrs)); [apply shr_1_nonneg | assumption].
Qed.

Lemma round_nearest_even_nonneg (mx : Z) (lx : location) :
  0 <= mx -> 0 <= round_nearest_even mx lx.
Proof.
  intros Hm. destruct lx as [|[]]; simpl; try assumption; [|lia].
  destruct (Z.even mx); lia.
Qed.

(** A rounded number is zero, finite or infinite, with the sign it was
    given: never [NaN]. *)
Lemma binary_round_aux_signed (prec emax : Z) (sx : bool) (mx ex : Z) (lx : location) :
  0 <= mx ->
  match binary_round_aux prec emax sx mx ex lx with
  | S754_zero s | S754_infinity s | S754_finite s _ _ => s = sx
  | S754_nan => False
  end.
Proof.
  intros Hm. unfold binary_round_aux.
  pose proof (shr_fexp_nonneg prec emax mx ex lx Hm) as H1.
  destruct (shr_fexp prec emax mx ex lx) as [mrs' e']. simpl in H1.
  pose proof (shr_fexp_nonneg prec emax
                (round_nearest_even (shr_m mrs') (loc_of_shr_record mrs')) e' loc_Exact
                (round_nearest_even_nonneg _ _ H1)) as H2.
  destruct (shr_fexp prec emax _ e' loc_Exact) as [mrs'' e'']. simpl in H2.
  destruct (shr_m mrs'') as [|p|p]; [reflexivity| |lia].
  destruct (e'' <=? emax - prec); reflexivity.
Qed.

Lemma binary_normalize_not_nan (prec emax m e : Z) (szero : bool) :
  binary_normalize prec emax m e szero <> S754_nan.
Proof.
  unfold binary_normalize, binary_round.
  destruct m as [|p|p]; [discriminate| |];
    destruct (shl_align _ _ _) as [mz ez];
    match goal with
    | |- binary_round_aux ?p ?em ?s ?m ?e ?l <> _ =>
        pose proof (binary_round_aux_signed p em s m e l ltac:(lia)) as H;
        destruct (binary_round_aux p em s m e l); [discriminate.. | contradiction | discriminate]
    end.
Qed.

Lemma binary_normalize_nonneg (prec emax m e : Z) :
  0 <= m -> SFleb (S754_zero false) (binary_normalize prec emax m e false) = true.
Proof.
  intros Hm. unfold binary_normalize, binary_round.
  destruct m as [|p|p]; [reflexivity| |lia].
  destruct (shl_align _ _ _) as [mz ez].
  pose proof (binary_round_aux_signed prec emax false (Z.pos mz) ez loc_Exact ltac:(lia)) as H.
  destruct (binary_round_aux _ _ _ _ _ _); [reflexivity | | contradiction |];
    rewrite H; reflexivity.
Qed.

(** *** Order of the numbers *)

Lemma SFcompare_antisym (x y : spec_float) :
  SFcompare y x = option_map CompOpp (SFcompare x y).
Proof.
  destruct x as [sx|sx| |sx mx ex], y as [sy|sy| |sy my ey]; simpl;
    try reflexivity; try (destruct sx; reflexivity); try (destruct sy; reflexivity);
    try (destruct sx, sy; reflexivity).
  destruct sx, sy; try reflexivity;
    rewrite (Z.compare_antisym ex ey); destruct (ex ?= ey); simpl; try reflexivity;
    change (PosDef.Pos.compare_cont Eq) with Pos.compare;
    rewrite (Pos.compare_antisym mx my); destruct (mx ?= my)%positive; reflexivity.
Qed.

Lemma SFcompare_refl (x : spec_float) : x <> S754_nan -> SFcompare x x = Some Eq.
Proof.
  destruct x as [s|s| |s m e]; intros Hx; simpl; [reflexivity | | congruence |].
  - destruct s; reflexivity.
  - rewrite Z.compare_refl. change (PosDef.Pos.compare_cont Eq) with Pos.compare.
    rewrite Pos.compare_refl. destruct s; reflexivity.
Qed.

Lemma is_nan_Prim2SF (x : float) : is_nan x = true <-> Prim2SF x = S754_nan.
Proof.
  unfold Prim2SF. destruct (is_nan x); [split; reflexivity|].
  split; [discriminate|].
  destruct (is_zero x); [discriminate|]. destruct (is_infinity x); [discriminate|].
  destruct (Z.frexp x) as [r ex].
  destruct (shr_fexp _ _ _ _ _) as [shr e']. destruct (shr_m shr); discriminate.
Qed.

Lemma not_nan_Prim2SF (x : float) : is_nan x = false <-> Prim2SF x <> S754_nan.
Proof.
  rewrite <- is_nan_Prim2SF. destruct (is_nan x); split; congruence.
Qed.

Lemma SFcompare_Some (x y : spec_float) :
  x <> S754_nan -> y <> S754_nan -> exists c, SFcompare x y = Some c.
Proof.
  destruct x, y; intros Hx Hy; try congruence; simpl; eauto.
Qed.

Lemma ltb_leb (a b : float) : (a <? b)%float = true -> (a <=? b)%float = true.
Proof.
  rewrite ltb_spec, leb_spec. unfold SFltb, SFleb.
  destruct (SFcompare _ _) as [[]|]; congruence.
Qed.

Lemma leb_refl (a : float) : is_nan a = false -> (a <=? a)%float = true.
Proof.
  intros Ha. rewrite leb_spec. unfold SFleb.
  rewrite SFcompare_refl; [reflexivity|]. apply not_nan_Prim2SF. assumption.
Qed.

Lemma not_ltb_leb (a b : float) :
  is_nan a = false -> is_nan b = false ->
  (a <? b)%float = false -> (b <=? a)%float = true.
Proof.
  intros Ha Hb. rewrite ltb_spec, leb_spec. unfold SFltb, SFleb.
  rewrite (SFcompare_antisym (Prim2SF a) (Prim2SF b)).
  destruct (SFcompare_Some (Prim2SF a) (Prim2SF b)) as [c ->];
    [apply not_nan_Prim2SF; assumption..|].
  destruct c; simpl; congruence.
Qed.

Lemma leb_not_nan (a b : float) :
  (a <=? b)%float = true -> is_nan a = false /\ is_nan b = false.
Proof.
  rewrite leb_spec. unfold SFleb. intros H.
  split; apply not_nan_Prim2SF; intros E; rewrite E in H;
    [|destruct (Prim2SF a)]; discriminate.
Qed.

Lemma minus_one_below (y : float) :
  (0 <=? y)%float = true -> (-1 <? y)%float = true.
Proof.
  rewrite leb_spec, ltb_spec.
  change (Prim2SF 0) with (S754_zero false).
  change (Prim2SF (-1)) with (S754_finite true 4503599627370496 (-52)).
  destruct (Prim2SF y) as [s|[]| |[] m e]; intros H;
    solve [reflexivity | discriminate H].
Qed.

Lemma ofZ_nonneg (k : Z) : 0 <= k -> (0 <=? Js.ofZ k)%float = true.
Proof.
  intros Hk. unfold Js.ofZ. destruct (decide (k < 0)) as [Hneg|_]; [lia|].
  rewrite leb_spec, of_uint63_spec.
  change (Prim2SF 0) with (S754_zero false).
  apply binary_normalize_nonneg. apply Uint63.to_Z_bounded.
Qed.

(** *** Arithmetic with a finite constant *)

Lemma SFadd_finite_not_nan (prec emax : Z) (x : spec_float) (s : bool) (m : positive) (e : Z) :
  x <> S754_nan -> SFadd prec emax x (S754_finite s m e) <> S754_nan.
Proof.
  intros Hx. destruct x as [sx|sx| |sx mx ex]; simpl; try discriminate; [congruence|].
  apply binary_normalize_not_nan.
Qed.

Lemma SFsub_finite_not_nan (prec emax : Z) (x : spec_float) (s : bool) (m : positive) (e : Z) :
  x <> S754_nan -> SFsub prec emax x (S754_finite s m e) <> S754_nan.
Proof.
  intros Hx. destruct x as [sx|sx| |sx mx ex]; simpl; try discriminate; [congruence|].
  apply binary_normalize_not_nan.
Qed.

Lemma add_finite_not_nan (x c : float) (s : bool) (m : positive) (e : Z) :
  Prim2SF c = S754_finite s m e -> is_nan x = false -> is_nan (x + c) = false.
Proof.
  intros Hc Hx. apply not_nan_Prim2SF. rewrite add_spec, Hc.
  apply SFadd_finite_not_nan. apply not_nan_Prim2SF. assumption.
Qed.

Lemma sub_finite_not_nan (x c : float) (s : bool) (m : positive) (e : Z) :
  Prim2SF c = S754_finite s m e -> is_nan x = false -> is_nan (x - c) = false.
Proof.
  intros Hc Hx. apply not_nan_Prim2SF. rewrite sub_spec, Hc.
  apply SFsub_finite_not_nan. apply not_nan_Prim2SF. assumption.
Qed.

Lemma add_nan (x c : float) : is_nan x = true -> is_nan (x + c) = true.
Proof.
  intros Hx. apply is_nan_Prim2SF. apply is_nan_Prim2SF in Hx.
  rewrite add_spec, Hx. reflexivity.
Qed.

Lemma sub_nan (x c : float) : is_nan x = true -> is_nan (x - c) = true.
Proof.
  intros Hx. apply is_nan_Prim2SF. apply is_nan_Prim2SF in Hx.
  rewrite sub_spec, Hx. reflexivity.
Qed.

(** *** [Math.max], [Math.min] and [clamp] *)

Lemma mathMax_nan (a b : float) : is_nan b = true -> is_nan (Js.mathMax a b) = true.
Proof. intros Hb. unfold Js.mathMax. rewrite Hb, orb_true_r. reflexivity. Qed.

Lemma mathMin_nan (a b : float) : is_nan b = true -> is_nan (Js.mathMin a b) = true.
Proof. intros Hb. unfold Js.mathMin. rewrite Hb, orb_true_r. reflexivity. Qed.

(** [Math.max] of two numbers is one of them, and neither is above it. *)
Lemma mathMax_spec (a b : float) :
  is_nan a = false -> is_nan b = false ->
  (Js.mathMax a b = a \/ Js.mathMax a b = b)
  /\ (a <=? Js.mathMax a b)%float = true
  /\ (b <=? Js.mathMax a b)%float = true.
Proof.
  intros Ha Hb. unfold Js.mathMax. rewrite Ha, Hb. simpl.
  destruct (a <? b)%float eqn:Hab.
  { split; [right; reflexivity|]. split; [apply ltb_leb; assumption | apply leb_refl; assumption]. }
  destruct (b <? a)%float eqn:Hba.
  { split; [left; reflexivity|]. split; [apply leb_refl; assumption | apply ltb_leb; assumption]. }
  destruct (get_sign a).
  - split; [right; reflexivity|].
    split; [apply not_ltb_leb; assumption | apply leb_refl; assumption].
  - split; [left; reflexivity|].
    split; [apply leb_refl; assumption | apply not_ltb_leb; assumption].
Qed.

(** [Math.min] of two numbers is one of them, and neither is below it. *)
Lemma mathMin_spec (a b : float) :
  is_nan a = false -> is_nan b = false ->
  (Js.mathMin a b = a \/ Js.mathMin a b = b)
  /\ (Js.mathMin a b <=? a)%float = true
  /\ (Js.mathMin a b <=? b)%float = true.
Proof.
  intros Ha Hb. unfold Js.mathMin. rewrite Ha, Hb. simpl.
  destruct (a <? b)%float eqn:Hab.
  { split; [left; reflexivity|]. split; [apply leb_refl; assumption | apply ltb_leb; assumption]. }
  destruct (b <? a)%float eqn:Hba.
  { split; [right; reflexivity|]. split; [apply ltb_leb; assumption | apply leb_refl; assumption]. }
  destruct (get_sign b).
  - split; [right; reflexivity|].
    split; [apply not_ltb_leb; assumption | apply leb_refl; assumption].
  - split; [left; reflexivity|].
    split; [apply leb_refl; assumption | apply not_ltb_leb; assumption].
Qed.

(** *** The stage written *)

Lemma nextStage_nan (rating : Rating) (stage maxStage : float) :
  is_nan stage = true -> is_nan (Js.nextStage rating stage maxStage) = true.
Proof.
  intros Hs. destruct rating; simpl; unfold Js.clamp.
  - apply mathMax_nan, sub_nan. assumption.
  - apply mathMin_nan, mathMax_nan. assumption.
  - apply mathMin_nan, mathMax_nan, add_nan. assumption.
  - apply mathMin_nan, mathMax_nan, add_nan. assumption.
Qed.

(** The number that [clamp] receives from [hard], [good] and [easy], and
    [Math.max] from [again]. *)
Lemma moved_not_nan (stage : float) :
  is_nan stage = false ->
  is_nan (stage - 1) = false /\ is_nan (stage + 1) = false /\ is_nan (stage + 2) = false.
Proof.
  intros Hs. split; [|split].
  - apply (sub_finite_not_nan stage 1 false 4503599627370496 (-52));
      [reflexivity | assumption].
  - apply (add_finite_not_nan stage 1 false 4503599627370496 (-52));
      [reflexivity | assumption].
  - apply (add_finite_not_nan stage 2 false 4503599627370496 (-51));
      [reflexivity | assumption].
Qed.

Lemma is_nan_zero : is_nan 0 = false.
Proof. reflexivity. Qed.

Lemma clamp_in_range (value maxStage : float) :
  is_nan value = false -> (0 <=? maxStage)%float = true ->
  (0 <=? Js.clamp value 0 maxStage)%float = true
  /\ (Js.clamp value 0 maxStage <=? maxStage)%float = true.
Proof.
  intros Hv Hmax. unfold Js.clamp.
  destruct (mathMax_spec 0 value is_nan_zero Hv) as (Hcase & Hlo & _).
  destruct (leb_not_nan _ _ Hlo) as [_ Hnan].
  destruct (leb_not_nan _ _ Hmax) as [_ Hnmax].
  destruct (mathMin_spec maxStage (Js.mathMax 0 value) Hnmax Hnan) as (Hmin & Hle & _).
  split; [|assumption].
  destruct Hmin as [-> | ->]; assumption.
Qed.

Lemma clamp_empty_range_numbers (value : float) :
  is_nan value = false -> Js.clamp value 0 (-1) = (-1)%float.
Proof.
  intros Hv. unfold Js.clamp.
  destruct (mathMax_spec 0 value is_nan_zero Hv) as (_ & Hlo & _).
  destruct (leb_not_nan _ _ Hlo) as [_ Hnan].
  unfold Js.mathMin. rewrite Hnan. simpl.
  rewrite (minus_one_below _ Hlo). reflexivity.
Qed.

Lemma nextStage_empty_table (rating : Rating) (stage : float) :
  rating <> Again -> is_nan stage = false ->
  Js.nextStage rating stage (-1) = (-1)%float.
Proof.
  intros Hr Hs. destruct (moved_not_nan stage Hs) as (_ & H1 & H2).
  destruct rating; [congruence | | |]; simpl;
    apply clamp_empty_range_numbers; assumption.
Qed.

Lemma nextStage_in_range (rating : Rating) (stage maxStage : float) :
  is_nan stage = false -> (0 <=? maxStage)%float = true ->
  (0 <=? Js.nextStage rating stage maxStage)%float = true
  /\ (rating <> Again ->
      (Js.nextStage rating stage maxStage <=? maxStage)%float = true)
  /\ (rating = Again -> (0 <? stage - 1)%float = true ->
      Js.nextStage rating stage maxStage = (stage - 1)%float).
Proof.
  intros Hs Hmax. destruct (moved_not_nan stage Hs) as (H0 & H1 & H2).
  destruct rating; simpl.
  - destruct (mathMax_spec 0 (stage - 1) is_nan_zero H0) as (_ & Hlo & _).
    split; [assumption|]. split; [congruence|].
    intros _ Hpos. unfold Js.mathMax. rewrite H0, Hpos. reflexivity.
  - destruct (clamp_in_range stage maxStage Hs Hmax). repeat split; auto; discriminate.
  - destruct (clamp_in_range (stage + 1) maxStage H1 Hmax). repeat split; auto; discriminate.
  - destruct (clamp_in_range (stage + 2) maxStage H2 Hmax). repeat split; auto; discriminate.
Qed.

(** *** The delay *)

Lemma element_nil {A : Type} (x : float) : Js.element (@nil A) x = None.
Proof.
  unfold Js.element. destruct (Js.exactZ x) as [k|]; [|reflexivity].
  destruct (decide _) as [Hk|_]; [simpl in Hk; lia | reflexivity].
Qed.

Lemma intervalDays_empty_table (stage : float) : Js.intervalDays [] stage = 1%float.
Proof. unfold Js.intervalDays. rewrite !element_nil. reflexivity. Qed.

Lemma getUTCDate_range (t : Z) : 1 <= Js.getUTCDate t <= 31.
Proof.
  unfold Js.getUTCDate, civilFromDays. cbn [snd].
  generalize (t / msPerDay + 719468). intros z.
  generalize (z - z / 146097 * 146097). intros doe.
  generalize (doe - (365 * ((doe - doe / 1460 + doe / 36524 - doe / 146096) / 365)
                     + (doe - doe / 1460 + doe / 36524 - doe / 146096) / 365 / 4
                     - (doe - doe / 1460 + doe / 36524 - doe / 146096) / 365 / 100)).
  intros doy.
  pose proof (Z.div_mod (5 * doy + 2) 153 ltac:(lia)) as H1.
  pose proof (Z.mod_pos_bound (5 * doy + 2) 153 ltac:(lia)) as H2.
  pose proof (Z.div_mod (153 * ((5 * doy + 2) / 153) + 2) 5 ltac:(lia)) as H3.
  pose proof (Z.mod_pos_bound (153 * ((5 * doy + 2) / 153) + 2) 5 ltac:(lia)) as H4.
  lia.
Qed.

(** One day after each day of a month, as [setUTCDate] reads the sum. *)
Lemma truncate_next_day (d : Z) :
  1 <= d <= 31 -> Js.truncate (Js.ofZ d + 1) = Some (d + 1).
Proof.
  intros Hd.
  assert (Hall : forallb (fun k => bool_decide (Js.truncate (Js.ofZ k + 1) = Some (k + 1)))
                   (map Z.of_nat (seq 1 31)) = true) by (vm_compute; reflexivity).
  rewrite forallb_forall in Hall.
  eapply bool_decide_eq_true_1, Hall, in_map_iff.
  exists (Z.to_nat d). split; [lia | apply in_seq; lia].
Qed.

Lemma setUTCDate_next_day (now : Z) :
  - Js.maxTime <= now -> now + msPerDay <= Js.maxTime ->
  Js.setUTCDate now (Js.ofZ (Js.getUTCDate now) + 1) = Some (now + 1 * msPerDay).
Proof.
  intros Hlo Hhi. unfold Js.setUTCDate.
  rewrite (truncate_next_day _ (getUTCDate_range now)).
  pose proof (Z.div_mod now msPerDay ltac:(unfold msPerDay; lia)) as Hdiv.
  assert (Htv : (now / msPerDay - Js.getUTCDate now + (Js.getUTCDate now + 1)) * msPerDay
                + now mod msPerDay = now + 1 * msPerDay) by lia.
  rewrite Htv. unfold Js.timeClip.
  destruct (decide _) as [_|Hout]; [reflexivity|].
  unfold msPerDay in *. lia.
Qed.

(** C10: on an empty interval table the clamp of [hard], [good] and
    [easy] has upper bound -1, which wins over the lower bound 0: from a
    stage that is a number (a fraction or an infinity as well as an
    integer) the stage written is -1, from a stage that is [NaN] it is
    [NaN]; under every rating the delay falls back to one day. The
    instant of the review and the day after it are taken inside the range
    of [Date]. *)
Theorem scheduleReview_empty_intervals :
  forall (toISOString : Z -> string) (now : Z) (n : Js.LearnNode) (rating : Rating)
         (masteryThreshold : float),
    - Js.maxTime <= now -> now + msPerDay <= Js.maxTime ->
    exists next,
      Js.scheduleReview toISOString now n rating [] masteryThreshold = Some next
      /\ (rating <> Again -> is_nan (Js.srsStage n) = false ->
          Js.srsStage next = (-1)%float)
      /\ (is_nan (Js.srsStage n) = true -> is_nan (Js.srsStage next) = true)
      /\ Js.lastReviewed next = Some (toISOString now)
      /\ Js.nextReview next = Some (toISOString (now + 1 * msPerDay)).
Proof.
  intros toISOString now n rating thr Hlo Hhi.
  unfold Js.scheduleReview.
  rewrite intervalDays_empty_table, (setUTCDate_next_day now Hlo Hhi).
  eexists. split; [reflexivity|]. cbn [Js.srsStage Js.lastReviewed Js.nextReview].
  change (Js.ofZ (Z.of_nat (length (@nil float)) - 1)) with (-1)%float.
  split; [apply nextStage_empty_table|].
  split; [apply nextStage_nan|]. split; reflexivity.
Qed.

Lemma scheduleReview_empty_intervals_witness :
  exists next,
    Js.scheduleReview isoString newYear2024 (Js.sampleNode 2 1.5) Good [] 4 = Some next
    /\ Js.srsStage next = (-1)%float
    /\ Js.lastReviewed next = Some "2024-01-01T00:00:00.000Z"
    /\ Js.nextReview next = Some "2024-01-02T00:00:00.000Z".
Proof.
  destruct (scheduleReview_empty_intervals isoString newYear2024 (Js.sampleNode 2 1.5)
              Good 4) as (next & Hrun & Hstage & _ & Hlast & Hnext).
  - vm_compute. discriminate.
  - vm_compute. discriminate.
  - exists next. split; [assumption|].
    split; [apply Hstage; [discriminate | reflexivity]|].
    split; [rewrite Hlast | rewrite Hnext]; vm_compute; reflexivity.
Defined.

(** A stage that is [NaN], rated [hard] on an empty interval table:
    [Math.max(0, NaN)] is [NaN] and so is [Math.min(-1, NaN)]; the stage
    written is not -1. *)
Lemma scheduleReview_empty_intervals_nan :
  exists next,
    Js.scheduleReview isoString newYear2024 (Js.sampleNode 2 nan) Hard [] 4 = Some next
    /\ Js.srsStage next <> (-1)%float
    /\ is_nan (Js.srsStage next) = true.
Proof.
  eexists. split; [vm_compute; reflexivity|]. cbn [Js.srsStage].
  split; [|reflexivity].
  intros E. apply (f_equal is_nan) in E. vm_compute in E. discriminate E.
Qed.

Example getUTCDate_leap_day : Js.getUTCDate (utc 2024 2 29 23 59 59) = 29.
Proof. vm_compute. reflexivity. Qed.

(** On integers the scheduler over numbers is the scheduler over [Z]:
    every rating, familiarities -2 to 7 and stages -3 to 12, on a table
    of four intervals, on one with a zero entry and on the empty one. *)
Example scheduleReview_models_agree :
  forallb
    (fun intervals =>
       forallb
         (fun rating =>
            forallb
              (fun fam =>
                 forallb
                   (fun stage =>
                      modelsAgree newYear2024 intervals 4 rating
                        (sampleNode "c" InProgress fam stage))
                   (seqZ (-3) 16))
              (seqZ (-2) 10))
         [Again; Hard; Good; Easy])
    [[1; 3; 7; 14]; [2; 0; 5]; []]
  = true.
Proof. vm_compute. reflexivity. Qed.

(** End-to-end scenario 3 over numbers. *)
Example scheduleReview_good_numbers :
  Js.scheduleReview isoString newYear2024 (Js.sampleNode 2 1) Good Js.sampleIntervals 4
  = Some (Js.mkNode "nix/store" "Nix store" None None None InProgress [] [] [] 3 2
            (Some "2024-01-01T00:00:00.000Z") (Some "2024-01-08T00:00:00.000Z")
            None None "").
Proof. vm_compute. reflexivity. Qed.

(** A stage between two entries of the table reads no entry: the review
    is scheduled by the last interval, 14 days, and the stage stays 1.5. *)
Example scheduleReview_fractional_stage :
  Js.scheduleReview isoString newYear2024 (Js.sampleNode 2 1.5) Hard Js.sampleIntervals 4
  = Some (Js.mkNode "nix/store" "Nix store" None None None InProgress [] [] [] 2 1.5
            (Some "2024-01-01T00:00:00.000Z") (Some "2024-01-15T00:00:00.000Z")
            None None "").
Proof. vm_compute. reflexivity. Qed.

(** An interval of half a day: [setUTCDate(1.5)] is [setUTCDate(1)], the
    next review is written at the instant of the review. *)
Example scheduleReview_fractional_interval :
  Js.scheduleReview isoString newYear2024 (Js.sampleNode 2 0) Hard [0.5%float] 4
  = Some (Js.mkNode "nix/store" "Nix store" None None None InProgress [] [] [] 2 0
            (Some "2024-01-01T00:00:00.000Z") (Some "2024-01-01T00:00:00.000Z")
            None None "").
Proof. vm_compute. reflexivity. Qed.

(** An interval past the range of [Date]: the new date is invalid and
    [toISOString] throws. *)
Example scheduleReview_invalid_date :
  Js.scheduleReview isoString newYear2024 (Js.sampleNode 2 0) Hard [infinity] 4 = None
  /\ Js.scheduleReview isoString newYear2024 (Js.sampleNode 2 0) Hard [1e9%float] 4 = None.
Proof. split; vm_compute; reflexivity. Qed.

End NumberFacts.

(** C1: a review rated [again] only bounds the stage from below. From
    stage 10 on the three intervals [1; 3; 7] it writes stage 9, which is
    outside [0, 2]. *)
Theorem scheduleReview_again_stage_out_of_range :
  let intervals := [1; 3; 7] in
  let next := scheduleReview isoString newYear2024
                (sampleNode "nix/store" InProgress 2 10) Again intervals 4 in
  srsStage next = 9
  /\ ~ (0 <= srsStage next <= Z.of_nat (length intervals) - 1).
Proof. vm_compute. split; [reflexivity|]. intros [_ H]. apply H. reflexivity. Qed.

(** C3: scenarios 3 and 4. A node with familiarity 2 at stage 1, reviewed
    at 2024-01-01T00:00:00Z on intervals [1; 3; 7; 14] with threshold 4:
    rated [good] it gets familiarity 3, stage 2, the next review on
    2024-01-08T00:00:00Z and status [in-progress]; rated [again] it gets
    familiarity 1, stage 0, the next review on 2024-01-02T00:00:00Z and
    status [in-progress]. [lastReviewed] is the instant of the review. *)
Theorem scheduleReview_scenarios_good_again :
  forall n : LearnNode,
    familiarity n = 2 -> srsStage n = 1 ->
    let good := scheduleReview isoString newYear2024 n Good [1; 3; 7; 14] 4 in
    let again := scheduleReview isoString newYear2024 n Again [1; 3; 7; 14] 4 in
    (familiarity good = 3 /\ srsStage good = 2
     /\ nextReview good = Some (isoString (utc 2024 1 8 0 0 0))
     /\ nextReview good = Some "2024-01-08T00:00:00.000Z"
     /\ status good = InProgress
     /\ lastReviewed good = Some "2024-01-01T00:00:00.000Z")
    /\ (familiarity again = 1 /\ srsStage again = 0
        /\ nextReview again = Some (isoString (utc 2024 1 2 0 0 0))
        /\ nextReview again = Some "2024-01-02T00:00:00.000Z"
        /\ status again = InProgress
        /\ lastReviewed again = Some "2024-01-01T00:00:00.000Z").
Proof.
  intros n Hfam Hstage. unfold scheduleReview. rewrite Hfam, Hstage.
  vm_compute. repeat split.
Qed.

Lemma scheduleReview_scenarios_good_again_witness :
  let n := sampleNode "c" Available 2 1 in
  let good := scheduleReview isoString newYear2024 n Good [1; 3; 7; 14] 4 in
  let again := scheduleReview isoString newYear2024 n Again [1; 3; 7; 14] 4 in
  (familiarity n = 2 /\ srsStage n = 1)
  /\ nextReview good = Some "2024-01-08T00:00:00.000Z"
  /\ nextReview again = Some "2024-01-02T00:00:00.000Z".
Proof.
  pose proof (scheduleReview_scenarios_good_again (sampleNode "c" Available 2 1)
                eq_refl eq_refl) as [(_ & _ & _ & Hg & _) (_ & _ & _ & Ha & _)].
  split; [split; reflexivity|]. split; assumption.
Defined.

(** ** Unlock resolver *)

Lemma mapSetAll_lookup (pid : string) (records : list NodeRecord) :
  forall (m : gmap string nat) (i : nat),
    mapSetAll m i records !! pid
    = match lastPos pid records with
      | Some j => Some (i + j)%nat
      | None => m !! pid
      end.
Proof.
  induction records as [|r rest IH]; intros m i; simpl; [reflexivity|].
  rewrite IH. destruct (lastPos pid rest) as [j|].
  - f_equal. lia.
  - destruct (decide (id (node r) = pid)) as [->|Hne].
    + rewrite lookup_insert_eq. f_equal. lia.
    + rewrite lookup_insert_ne by assumption. reflexivity.
Qed.

Lemma byIdOf_lookup (pid : string) (records : list NodeRecord) :
  byIdOf records !! pid = lastPos pid records.
Proof.
  unfold byIdOf. rewrite mapSetAll_lookup, lookup_empty.
  destruct (lastPos pid records); reflexivity.
Qed.

Lemma lastPos_None (pid : string) (records : list NodeRecord) :
  lastPos pid records = None <-> forall q, q ∈ records -> id (node q) <> pid.
Proof.
  induction records as [|r rest IH]; simpl.
  - split; [intros _ q Hq; inversion Hq | reflexivity].
  - destruct (lastPos pid rest) as [j|] eqn:Hrest.
    + split; [discriminate|]. intros Hall. exfalso.
      destruct IH as [_ IH]. discriminate IH.
      intros q Hq. apply Hall. right. assumption.
    + destruct IH as [IH _]. specialize (IH eq_refl).
      destruct (decide (id (node r) = pid)) as [Heq|Hne].
      * split; [discriminate|]. intros Hall. exfalso.
        apply (Hall r); [left | assumption].
      * split; [|reflexivity]. intros _ q Hq.
        apply elem_of_cons in Hq as [->|Hq]; [assumption | apply IH; assumption].
Qed.

Lemma lastPos_Some (pid : string) (records : list NodeRecord) (j : nat) :
  lastPos pid records = Some j <->
  exists p, records !! j = Some p /\ id (node p) = pid
            /\ forall (k : nat) (q : NodeRecord),
                 (j < k)%nat -> records !! k = Some q -> id (node q) <> pid.
Proof.
  revert j. induction records as [|r rest IH]; intros j; simpl.
  - split; [discriminate | intros (p & Hp & _); discriminate].
  - destruct (lastPos pid rest) as [j'|] eqn:Hrest.
    + split.
      * intros [= <-]. destruct (IH j') as [(p & Hp & Hid & Hlast) _]; [reflexivity|].
        exists p. repeat split; [assumption | assumption |].
        intros [|k] q Hk Hq; [lia|]. apply (Hlast k q); [lia | assumption].
      * intros (p & Hp & Hid & Hlast). destruct j as [|j].
        -- exfalso. destruct (IH j') as [(p' & Hp' & Hid' & _) _]; [reflexivity|].
           apply (Hlast (S j') p'); [lia | assumption | assumption].
        -- f_equal. destruct (IH j) as [_ Hback].
           assert (Hj : Some j' = Some j); [|congruence].
           apply Hback. exists p. repeat split; [assumption | assumption |].
           intros k q Hk Hq. apply (Hlast (S k) q); [lia | assumption].
    + pose proof (proj1 (lastPos_None pid rest) Hrest) as Hnone.
      destruct (decide (id (node r) = pid)) as [Heq|Hne].
      * split.
        -- intros [= <-]. exists r. repeat split; [assumption|].
           intros [|k] q Hk Hq; [lia|]. apply Hnone.
           apply list_elem_of_lookup. exists k. assumption.
        -- intros (p & Hp & Hid & _). destruct j as [|j]; [reflexivity|].
           exfalso. apply (Hnone p); [|assumption].
           apply list_elem_of_lookup. exists j. assumption.
      * split; [discriminate|]. intros (p & Hp & Hid & _). exfalso.
        destruct j as [|j].
        -- simpl in Hp. congruence.
        -- apply (Hnone p); [|assumption].
           apply list_elem_of_lookup. exists j. assumption.
Qed.

(** What the [Map] lookup returns, in terms of the collection. *)
Lemma getNode_resolves (records : list NodeRecord) (pid : string) (n : LearnNode) :
  getNode records (byIdOf records) pid = Some n
  <-> exists p, resolves records pid p /\ node p = n.
Proof.
  unfold getNode, resolves. rewrite byIdOf_lookup. split.
  - destruct (lastPos pid records) as [j|] eqn:Hj; [|discriminate].
    apply lastPos_Some in Hj as (p & Hp & Hid & Hlast).
    rewrite Hp. intros [= <-]. exists p. split; [|reflexivity].
    exists j. repeat split; assumption.
  - intros (p & (j & Hp & Hid & Hlast) & <-).
    assert (Hj : lastPos pid records = Some j).
    { apply lastPos_Some. exists p. repeat split; assumption. }
    rewrite Hj, Hp. reflexivity.
Qed.

Lemma getNode_absent (records : list NodeRecord) (pid : string) :
  (forall q, q ∈ records -> id (node q) <> pid) ->
  getNode records (byIdOf records) pid = None.
Proof.
  intros Habs. unfold getNode. rewrite byIdOf_lookup.
  apply lastPos_None in Habs. rewrite Habs. reflexivity.
Qed.

Lemma prereqMet_satisfied (records : list NodeRecord) (masteryThreshold : Z)
    (pid : string) :
  prereqMet records (byIdOf records) masteryThreshold pid = true
  <-> prereqSatisfied records masteryThreshold pid.
Proof.
  unfold prereqMet, prereqSatisfied.
  destruct (getNode records (byIdOf records) pid) as [n|] eqn:Hget.
  - apply getNode_resolves in Hget as (p & Hres & <-).
    rewrite orb_true_iff, !bool_decide_eq_true. split.
    + intros H. exists p. split; assumption.
    + intros (p' & Hres' & H).
      assert (node p' = node p) as <-; [|assumption].
      assert (Some (node p') = Some (node p)) as [= ->]; [|reflexivity].
      rewrite <- (proj2 (getNode_resolves records pid (node p'))) by eauto.
      rewrite <- (proj2 (getNode_resolves records pid (node p))) by eauto.
      reflexivity.
  - split; [discriminate|]. intros (p & Hres & _). exfalso.
    assert (getNode records (byIdOf records) pid = Some (node p)) as Hsome.
    { apply getNode_resolves. eauto. }
    congruence.
Qed.

(** Unlocking a record leaves what a prerequisite check reads of it
    unchanged: it is neither mastered before nor after, and its familiarity
    is the same. *)
Lemma unlockedFrom_check (masteryThreshold : Z) (r r' : NodeRecord) :
  unlockedFrom r r' ->
  bool_decide (status (node r') = Mastered)
  || bool_decide (masteryThreshold <= familiarity (node r'))
  = bool_decide (status (node r) = Mastered)
    || bool_decide (masteryThreshold <= familiarity (node r)).
Proof.
  intros [->|[Hlocked ->]]; [reflexivity|]. simpl.
  rewrite Hlocked. reflexivity.
Qed.

Lemma prereqMet_unlockedFrom (records store : list NodeRecord)
    (byId : gmap string nat) (masteryThreshold : Z) (pid : string) :
  Forall2 unlockedFrom records store ->
  prereqMet store byId masteryThreshold pid
  = prereqMet records byId masteryThreshold pid.
Proof.
  intros Hrel. unfold prereqMet, getNode.
  destruct (byId !! pid) as [j|]; [|reflexivity].
  destruct (records !! j) as [r|] eqn:Hr.
  - destruct (Forall2_lookup_l _ _ _ _ _ Hrel Hr) as (r' & Hr' & Hrr').
    rewrite Hr'. simpl. apply unlockedFrom_check. assumption.
  - assert (store !! j = None) as ->; [|reflexivity].
    apply lookup_ge_None. apply lookup_ge_None in Hr.
    rewrite <- (Forall2_length _ _ _ Hrel). assumption.
Qed.

Lemma forallb_pointwise {A : Type} (f g : A -> bool) (l : list A) :
  (forall x, f x = g x) -> forallb f l = forallb g l.
Proof. intros Hfg. induction l as [|x l IH]; simpl; [reflexivity | rewrite Hfg, IH; reflexivity]. Qed.

Section SinglePass.

Variable records : list NodeRecord.
Variable masteryThreshold : Z.

Lemma settle_unlockedFrom (r : NodeRecord) :
  unlockedFrom r (settle records masteryThreshold r).
Proof.
  unfold settle, snapshotUnlocks.
  destruct (bool_decide (status (node r) = Locked)) eqn:Hlocked; simpl.
  - apply bool_decide_eq_true in Hlocked.
    destruct (forallb _ _); [right; split; [assumption | reflexivity] | left; reflexivity].
  - left. reflexivity.
Qed.

Lemma storeAfter_unlockedFrom (k : nat) :
  Forall2 unlockedFrom records (storeAfter records masteryThreshold k).
Proof.
  unfold storeAfter. rewrite <- (take_drop k records) at 1.
  apply Forall2_app.
  - apply Forall2_fmap_r. apply Forall_Forall2_diag.
    apply Forall_forall. intros r _. apply settle_unlockedFrom.
  - apply Forall_Forall2_diag. apply Forall_forall. intros r _. left. reflexivity.
Qed.

Lemma storeAfter_lookup (k : nat) :
  storeAfter records masteryThreshold k !! k = records !! k.
Proof.
  unfold storeAfter. destruct (decide (k <= length records)%nat) as [Hk|Hk].
  - rewrite lookup_app_r; rewrite length_fmap, length_take_le by assumption; [|lia].
    rewrite Nat.sub_diag, lookup_drop. f_equal. lia.
  - rewrite take_ge, drop_ge, app_nil_r by lia.
    rewrite !(proj2 (lookup_ge_None _ _)); [reflexivity | lia |].
    rewrite length_fmap. lia.
Qed.

Lemma storeAfter_S (k : nat) (r : NodeRecord) :
  records !! k = Some r ->
  storeAfter records masteryThreshold (S k)
  = <[k := settle records masteryThreshold r]> (storeAfter records masteryThreshold k).
Proof.
  intros Hk. unfold storeAfter.
  assert (k < length records)%nat as Hlt by (eapply lookup_lt_Some; eassumption).
  rewrite (take_S_r _ _ _ Hk), fmap_app, <- app_assoc. simpl.
  rewrite insert_app_r_alt; rewrite length_fmap, length_take_le by lia; [|lia].
  rewrite Nat.sub_diag, (drop_S _ _ _ Hk). reflexivity.
Qed.

Lemma pushedAfter_S (k : nat) :
  pushedAfter records masteryThreshold (S k)
  = pushedAfter records masteryThreshold k
    ++ (if snapshotUnlocksAt records masteryThreshold k then [k] else []).
Proof.
  unfold pushedAfter. rewrite seq_S, filter_app. f_equal. simpl.
  rewrite filter_cons, filter_nil.
  destruct (snapshotUnlocksAt records masteryThreshold k);
    destruct (decide _); congruence.
Qed.

(** The state of the loop after [k] iterations. *)
Lemma unlock_loop (k : nat) :
  (k <= length records)%nat ->
  foldl (unlockStep (byIdOf records) masteryThreshold) (records, []) (seq 0 k)
  = (storeAfter records masteryThreshold k, pushedAfter records masteryThreshold k).
Proof.
  induction k as [|k IH]; intros Hk.
  - simpl. unfold storeAfter. rewrite take_0, drop_0. reflexivity.
  - rewrite seq_S, foldl_app, IH by lia. simpl.
    destruct (lookup_lt_is_Some_2 records k ltac:(lia)) as [r Hr].
    unfold unlockStep. simpl. rewrite storeAfter_lookup, Hr.
    rewrite pushedAfter_S, (storeAfter_S _ _ Hr).
    unfold snapshotUnlocksAt. rewrite Hr.
    unfold settle, snapshotUnlocks.
    rewrite (forallb_pointwise _ _ _
               (fun pid => prereqMet_unlockedFrom records
                             (storeAfter records masteryThreshold k)
                             (byIdOf records) masteryThreshold pid
                             (storeAfter_unlockedFrom k))).
    destruct (decide (status (node r) ≠ Locked)) as [Hne|Heq].
    + rewrite bool_decide_eq_false_2 by assumption. simpl.
      rewrite app_nil_r, list_insert_id; [reflexivity|].
      rewrite storeAfter_lookup. assumption.
    + rewrite bool_decide_eq_true_2
        by (destruct (decide (status (node r) = Locked)); [assumption | contradiction]).
      simpl. destruct (forallb _ _).
      * reflexivity.
      * rewrite app_nil_r, list_insert_id; [reflexivity|].
        rewrite storeAfter_lookup. assumption.
Qed.

End SinglePass.

Lemma snapshotUnlocks_spec (records : list NodeRecord) (masteryThreshold : Z)
    (r : NodeRecord) :
  snapshotUnlocks records masteryThreshold r = true
  <-> status (node r) = Locked
      /\ forall pid, pid ∈ prerequisites (node r) ->
                     prereqSatisfied records masteryThreshold pid.
Proof.
  unfold snapshotUnlocks.
  rewrite andb_true_iff, bool_decide_eq_true, forallb_forall.
  split; intros [Hlocked Hall]; (split; [assumption|]); intros pid Hpid.
  - apply prereqMet_satisfied, Hall, list_elem_of_In, Hpid.
  - apply prereqMet_satisfied, Hall, list_elem_of_In, Hpid.
Qed.

Lemma setStatus_status (s : Status) (r : NodeRecord) : status (node (setStatus s r)) = s.
Proof. reflexivity. Qed.

(** The loop run to its end is the snapshot reading of the resolver. *)
Lemma unlock_loop_complete (records : list NodeRecord) (masteryThreshold : Z) :
  unlockEligibleNodes records masteryThreshold
  = resolveSnapshot records masteryThreshold.
Proof.
  unfold unlockEligibleNodes, resolveSnapshot.
  rewrite unlock_loop by lia. unfold storeAfter, pushedAfter.
  rewrite take_ge, drop_ge, app_nil_r by lia. reflexivity.
Qed.

(** C8: the mutating loop computes what a judgement of every locked node
    against the collection as given computes, store and returned positions
    alike; and at every point of the loop a prerequisite check on the
    store as mutated so far gives the answer it gives on the collection as
    given, so a node unlocked earlier in the pass cannot unlock another. *)
Theorem unlockEligibleNodes_single_pass :
  forall (records : list NodeRecord) (masteryThreshold : Z),
    unlockEligibleNodes records masteryThreshold
    = resolveSnapshot records masteryThreshold
    /\ forall (k : nat) (pid : string),
         let st := foldl (unlockStep (byIdOf records) masteryThreshold)
                     (records, []) (take k (seq 0 (length records))) in
         prereqMet st.1 (byIdOf records) masteryThreshold pid
         = prereqMet records (byIdOf records) masteryThreshold pid.
Proof.
  intros records thr. split; [apply unlock_loop_complete|].
  - intros k pid. simpl.
    assert (take k (seq 0 (length records)) = seq 0 (k `min` length records)) as ->.
    { rewrite take_seq. reflexivity. }
    rewrite unlock_loop by lia. simpl.
    apply prereqMet_unlockedFrom, storeAfter_unlockedFrom.
Qed.

(** C2: the record at any position of the collection comes out of the
    call either untouched or with its status changed from locked to
    available and nothing else; it is unlocked iff it was locked and every
    id in its prerequisites resolves to a record of the collection that is
    mastered or has familiarity at least the threshold; a prerequisite id
    that no record carries keeps it as it was; a locked record without
    prerequisites is unlocked; and the returned array holds, once each,
    exactly the positions whose status changed. *)
Theorem unlockEligibleNodes_unlocks_iff :
  forall (records : list NodeRecord) (masteryThreshold : Z) (i : nat)
         (r : NodeRecord),
    records !! i = Some r ->
    let store := (unlockEligibleNodes records masteryThreshold).1 in
    let unlocked := (unlockEligibleNodes records masteryThreshold).2 in
    exists r' : NodeRecord,
      store !! i = Some r'
      /\ unlockedFrom r r'
      /\ ((status (node r) = Locked /\ status (node r') = Available)
          <-> (status (node r) = Locked
               /\ forall pid, pid ∈ prerequisites (node r) ->
                              prereqSatisfied records masteryThreshold pid))
      /\ (forall pid, pid ∈ prerequisites (node r) ->
                      (forall q, q ∈ records -> id (node q) <> pid) ->
                      r' = r)
      /\ (status (node r) = Locked -> prerequisites (node r) = [] ->
          status (node r') = Available)
      /\ (i ∈ unlocked <-> status (node r') <> status (node r))
      /\ NoDup unlocked.
Proof.
  intros records thr i r Hi.
  rewrite unlock_loop_complete.
  unfold resolveSnapshot. simpl.
  rewrite list_lookup_fmap, Hi. simpl.
  pose proof (snapshotUnlocks_spec records thr r) as Hspec.
  assert (Hat : snapshotUnlocksAt records thr i = snapshotUnlocks records thr r).
  { unfold snapshotUnlocksAt. rewrite Hi. reflexivity. }
  assert (Hmem : i ∈ filter (fun j => snapshotUnlocksAt records thr j = true)
                       (seq 0 (length records))
                 <-> snapshotUnlocks records thr r = true).
  { rewrite list_elem_of_filter, elem_of_seq, Hat.
    apply lookup_lt_Some in Hi. intuition lia. }
  eexists. split; [reflexivity|]. unfold settle.
  destruct (snapshotUnlocks records thr r) eqn:Hu.
  - destruct Hspec as [Hspec _]. destruct (Hspec eq_refl) as [Hlocked Hall].
    split; [right; split; [assumption | reflexivity]|].
    split; [split; intros _; split; [assumption | assumption | assumption | reflexivity]|].
    split.
    { intros pid Hpid Habs. exfalso.
      destruct (Hall pid Hpid) as (p & (j & Hp & Hid & _) & _).
      apply (Habs p); [|assumption]. apply list_elem_of_lookup. exists j. assumption. }
    split; [intros _ _; reflexivity|].
    split; [|apply NoDup_filter, NoDup_seq].
    rewrite Hmem, setStatus_status, Hlocked. split; [discriminate | reflexivity].
  - split; [left; reflexivity|].
    split.
    { split.
      - intros [Hlocked Hav]. rewrite Hlocked in Hav. discriminate.
      - intros H. apply Hspec in H. discriminate. }
    split; [intros _ _ _; reflexivity|].
    split.
    { intros Hlocked Hnil. exfalso.
      assert (false = true); [|discriminate].
      apply Hspec. split; [assumption|]. rewrite Hnil. intros pid Hpid. inversion Hpid. }
    split; [|apply NoDup_filter, NoDup_seq].
    rewrite Hmem. split; [discriminate | congruence].
Qed.

(** ** Sorting and the element picked *)

Section SortFacts.

Context {A : Type}.
Variable comparefn : A -> A -> option Z.

Lemma elem_of_insertSorted (x y : A) (l : list A) :
  y ∈ insertSorted comparefn x l <-> y = x \/ y ∈ l.
Proof.
  induction l as [|z l IH]; simpl.
  - rewrite elem_of_cons. reflexivity.
  - destruct (decide _).
    + rewrite elem_of_cons. reflexivity.
    + rewrite !elem_of_cons, IH. tauto.
Qed.

Lemma elem_of_sort (y : A) (l : list A) : y ∈ sort comparefn l <-> y ∈ l.
Proof.
  induction l as [|x l IH]; simpl; [reflexivity|].
  rewrite elem_of_insertSorted, IH, elem_of_cons. reflexivity.
Qed.

Lemma length_insertSorted (x : A) (l : list A) :
  length (insertSorted comparefn x l) = S (length l).
Proof.
  induction l as [|z l IH]; simpl; [reflexivity|].
  destruct (decide _); simpl; [reflexivity | rewrite IH; reflexivity].
Qed.

Lemma length_sort (l : list A) : length (sort comparefn l) = length l.
Proof.
  induction l as [|x l IH]; simpl; [reflexivity|].
  rewrite length_insertSorted, IH. reflexivity.
Qed.

(** Element [0] of the sorted array, by recursion on the input. *)
Lemma head_sort_cons (x : A) (l : list A) :
  head (sort comparefn (x :: l))
  = match head (sort comparefn l) with
    | Some m => if decide (sortCompare comparefn x m <= 0) then Some x else Some m
    | None => Some x
    end.
Proof.
  simpl. destruct (sort comparefn l) as [|m rest]; simpl; [reflexivity|].
  destruct (decide _); reflexivity.
Qed.

Lemma head_sort_elem (m : A) (l : list A) :
  head (sort comparefn l) = Some m -> m ∈ l.
Proof.
  intros Hm. apply elem_of_sort. destruct (sort comparefn l); simpl in Hm; [discriminate|].
  injection Hm as ->. left.
Qed.

(** On elements that the comparator orders consistently. *)
Variable ok : A -> Prop.
Hypothesis compare_trans :
  forall a b d, ok a -> ok b -> ok d ->
    sortCompare comparefn a b <= 0 -> sortCompare comparefn b d <= 0 ->
    sortCompare comparefn a d <= 0.
Hypothesis compare_total :
  forall a b, ok a -> ok b ->
    0 < sortCompare comparefn a b -> sortCompare comparefn b a <= 0.

(** Element [0] of the sorted array is the first least element of the
    input: everything before it is strictly greater, nothing after it is
    smaller. *)
Lemma head_sort_first_least (l : list A) :
  Forall ok l -> l <> [] ->
  exists pre m post,
    l = pre ++ m :: post
    /\ head (sort comparefn l) = Some m
    /\ (forall e, e ∈ pre -> 0 < sortCompare comparefn e m)
    /\ (forall e, e ∈ post -> sortCompare comparefn m e <= 0).
Proof.
  induction l as [|x l IH]; intros Hok Hne; [congruence|].
  apply Forall_cons in Hok as [Hx Hl].
  rewrite head_sort_cons.
  destruct l as [|y l'].
  - exists [], x, []. simpl. repeat split; intros e He; inversion He.
  - destruct (IH Hl ltac:(discriminate)) as (pre & m & post & Hsplit & Hhead & Hpre & Hpost).
    rewrite Hhead.
    assert (Hm : ok m).
    { rewrite Forall_forall in Hl. apply Hl. rewrite Hsplit.
      apply elem_of_app. right. left. }
    destruct (decide (sortCompare comparefn x m <= 0)) as [Hle|Hgt].
    + exists [], x, (y :: l'). simpl. repeat split; [intros e He; inversion He|].
      intros e He. rewrite Hsplit in He.
      assert (He' : ok e).
      { rewrite Forall_forall in Hl. apply Hl. rewrite Hsplit. assumption. }
      apply elem_of_app in He as [He|He].
      * apply (compare_trans x m e); try assumption.
        apply compare_total; try assumption. apply Hpre. assumption.
      * apply elem_of_cons in He as [->|He]; [assumption|].
        apply (compare_trans x m e); try assumption. apply Hpost. assumption.
    + exists (x :: pre), m, post. rewrite Hsplit. simpl.
      repeat split; [|assumption].
      intros e He. apply elem_of_cons in He as [->|He]; [lia | apply Hpre; assumption].
Qed.

End SortFacts.

(** A split of a filtered array is the trace of a split of the array. *)
Lemma filter_split {A : Type} (P : A -> Prop) `{forall x, Decision (P x)}
    (l pre post : list A) (m : A) :
  filter P l = pre ++ m :: post ->
  exists pre0 post0,
    l = pre0 ++ m :: post0 /\ filter P pre0 = pre /\ filter P post0 = post /\ P m.
Proof.
  revert pre. induction l as [|x l IH]; intros pre Hf.
  - rewrite filter_nil in Hf. destruct pre; discriminate.
  - rewrite filter_cons in Hf. destruct (decide (P x)) as [Hx|Hx].
    + destruct pre as [|p pre]; simpl in Hf.
      * injection Hf as -> Hpost. exists [], l. repeat split; assumption.
      * injection Hf as -> Hrest.
        destruct (IH pre Hrest) as (pre0 & post0 & -> & Hpre & Hpost & Hm).
        exists (p :: pre0), post0. rewrite filter_cons, decide_True by assumption.
        repeat split; [rewrite Hpre; reflexivity | assumption | assumption].
    + destruct (IH pre Hf) as (pre0 & post0 & -> & Hpre & Hpost & Hm).
      exists (x :: pre0), post0. rewrite filter_cons, decide_False by assumption.
      repeat split; assumption.
Qed.

(** ** Next-node selector *)

Section SelectorFacts.

Variable parseDate : string -> option Z.

Lemma dueAt_isDue (now : Z) (r : NodeRecord) (t : Z) :
  dueAt parseDate now r t
  <-> status (node r) <> Locked /\ isDue parseDate now r = true
      /\ reviewTime parseDate r = Some t.
Proof.
  unfold dueAt, isDue, reviewTime. split.
  - intros (Hs & s & -> & -> & Hle). repeat split; [assumption|].
    apply bool_decide_eq_true. assumption.
  - intros (Hs & Hdue & Ht). split; [assumption|].
    destruct (truthy (nextReview (node r))) as [s|]; [|discriminate].
    exists s. rewrite Ht in Hdue. apply bool_decide_eq_true in Hdue. auto.
Qed.

Lemma isDue_reviewTime (now : Z) (r : NodeRecord) :
  isDue parseDate now r = true -> exists t, reviewTime parseDate r = Some t.
Proof.
  unfold isDue, reviewTime. destruct (truthy _); [|discriminate].
  destruct (parseDate s) as [t|]; [eauto | discriminate].
Qed.

Lemma byNextReview_compare (a b : NodeRecord) (ta tb : Z) :
  reviewTime parseDate a = Some ta -> reviewTime parseDate b = Some tb ->
  sortCompare (byNextReview parseDate) a b = ta - tb.
Proof. intros Ha Hb. unfold sortCompare, byNextReview. rewrite Ha, Hb. reflexivity. Qed.




(** The two filters that build [due], as one membership test. *)
Lemma elem_of_due (now : Z) (records : list NodeRecord) (r : NodeRecord) :
  r ∈ filter (fun r => isDue parseDate now r = true)
        (filter (fun r => status (node r) ≠ Locked) records)
  <-> r ∈ records /\ exists t, dueAt parseDate now r t.
Proof.
  rewrite !list_elem_of_filter. split.
  - intros (Hdue & Hs & Hin). split; [assumption|].
    destruct (isDue_reviewTime _ _ Hdue) as [t Ht]. exists t.
    apply dueAt_isDue. auto.
  - intros (Hin & t & Hd). apply dueAt_isDue in Hd as (Hs & Hdue & _). auto.
Qed.

(** C5: when some record that is not locked has a [nextReview] at or
    before [now], the selector answers [due-review] with a due record of
    earliest [nextReview], the first such in input order: every due
    record before it in the input is due strictly later, and no due
    record after it is due earlier. Familiarity plays no part. *)
Theorem pickNextNode_due_review :
  forall (now : Z) (records : list NodeRecord),
    (exists r t, r ∈ records /\ dueAt parseDate now r t) ->
    exists pre r post t,
      records = pre ++ r :: post
      /\ dueAt parseDate now r t
      /\ pickNextNode parseDate now records
         = mkResult (Some (node r)) (Some "due-review")
      /\ (forall e t', e ∈ pre -> dueAt parseDate now e t' -> t < t')
      /\ (forall e t', e ∈ post -> dueAt parseDate now e t' -> t <= t').
Proof.
  intros now records (r0 & t0 & Hin0 & Hdue0).
  unfold pickNextNode.
  set (unlocked := filter (fun r => status (node r) ≠ Locked) records).
  set (due := filter (fun r => isDue parseDate now r = true) unlocked).
  assert (Hr0 : r0 ∈ due) by (apply elem_of_due; eauto).
  assert (Hok : Forall (fun r => exists t, reviewTime parseDate r = Some t) due).
  { apply Forall_forall. intros r Hr. apply list_elem_of_filter in Hr as [Hr _].
    eapply isDue_reviewTime. eassumption. }
  destruct (head_sort_first_least (byNextReview parseDate)
              (fun r => exists t, reviewTime parseDate r = Some t)) with (l := due)
    as (pre & m & post & Hsplit & Hhead & Hpre & Hpost).
  - intros a b d [ta Ha] [tb Hb] [td Hd].
    rewrite (byNextReview_compare _ _ _ _ Ha Hb), (byNextReview_compare _ _ _ _ Hb Hd),
      (byNextReview_compare _ _ _ _ Ha Hd). lia.
  - intros a b [ta Ha] [tb Hb].
    rewrite (byNextReview_compare _ _ _ _ Ha Hb), (byNextReview_compare _ _ _ _ Hb Ha). lia.
  - assumption.
  - intros Hnil. rewrite Hnil in Hr0. inversion Hr0.
  - rewrite Hhead. simpl.
    destruct (filter_split _ _ _ _ _ Hsplit) as (pre1 & post1 & Hsplit1 & Hpre1 & Hpost1 & Hm1).
    destruct (filter_split _ _ _ _ _ Hsplit1) as (pre0 & post0 & Hsplit0 & Hpre0 & Hpost0 & Hm0).
    destruct (isDue_reviewTime _ _ Hm1) as [t Ht].
    exists pre0, m, post0, t.
    split; [assumption|].
    split; [apply dueAt_isDue; auto|].
    split; [destruct due; [destruct pre; discriminate | reflexivity]|].
    split.
    + intros e t' He Hd. pose proof Hd as Hd'.
      apply dueAt_isDue in Hd' as (Hs & Hdue & Ht').
      assert (He' : e ∈ pre).
      { rewrite <- Hpre1, <- Hpre0. rewrite !list_elem_of_filter. auto. }
      specialize (Hpre e He'). rewrite (byNextReview_compare _ _ _ _ Ht' Ht) in Hpre. lia.
    + intros e t' He Hd. pose proof Hd as Hd'.
      apply dueAt_isDue in Hd' as (Hs & Hdue & Ht').
      assert (He' : e ∈ post).
      { rewrite <- Hpost1, <- Hpost0. rewrite !list_elem_of_filter. auto. }
      specialize (Hpost e He'). rewrite (byNextReview_compare _ _ _ _ Ht Ht') in Hpost. lia.
Qed.

(** C9: whatever the tier, a record that the selector returns is not
    locked. *)
Theorem pickNextNode_never_locked :
  forall (now : Z) (records : list NodeRecord) (n : LearnNode),
    resultNode (pickNextNode parseDate now records) = Some n ->
    status n <> Locked.
Proof.
  intros now records n. unfold pickNextNode.
  set (unlocked := filter (fun r => status (node r) ≠ Locked) records).
  assert (Hun : forall r, r ∈ unlocked -> status (node r) <> Locked).
  { intros r Hr. apply list_elem_of_filter in Hr as [Hr _]. assumption. }
  assert (Htier : forall (P : NodeRecord -> Prop) `(forall x, Decision (P x)) cmp,
             node <$> head (sort cmp (filter P unlocked)) = Some n ->
             status n <> Locked).
  { intros P ? cmp Hhead. apply fmap_Some in Hhead as (m & Hm & ->).
    apply head_sort_elem in Hm. apply list_elem_of_filter in Hm as [_ Hm].
    apply Hun. assumption. }
  destruct (filter (fun r => isDue parseDate now r = true) unlocked) eqn:Hdue;
    [|rewrite <- Hdue; simpl; apply Htier].
  destruct (filter (fun r => status (node r) = Available) unlocked) eqn:Hav;
    [|rewrite <- Hav; simpl; apply Htier].
  destruct (filter (fun r => status (node r) = InProgress) unlocked) eqn:Hip;
    [|rewrite <- Hip; simpl; apply Htier].
  simpl. discriminate.
Qed.





End SelectorFacts.

(** ** Scenarios *)

(** Scenario 2: resolving [A; B] at threshold 4 returns B, now available. *)
Example unlock_scenario_2 :
  unlockedRecords [recordA; recordB] 4 = [setStatus Available recordB].
Proof. vm_compute. reflexivity. Qed.

(** No cascade: P unlocks, Q, which waits for P, stays locked. *)
Example unlock_no_cascade :
  unlockEligibleNodes [recordP; recordQ] 4
  = ([setStatus Available recordP; recordQ], [0%nat]).
Proof. vm_compute. reflexivity. Qed.

Lemma unlockEligibleNodes_unlocks_iff_witness :
  exists r' : NodeRecord,
    (unlockEligibleNodes [recordA; recordB] 4).1 !! 1%nat = Some r'
    /\ unlockedFrom recordB r'
    /\ (1%nat ∈ (unlockEligibleNodes [recordA; recordB] 4).2
        <-> status (node r') <> status (node recordB)).
Proof.
  destruct (unlockEligibleNodes_unlocks_iff [recordA; recordB] 4 1 recordB eq_refl)
    as (r' & Hstore & Hfrom & _ & _ & _ & Hret & _).
  exists r'. repeat split; solve [assumption | apply Hret].
Defined.

(** Scenario 5: the available node D wins over E, in progress with lower
    familiarity. *)
Example pickNextNode_scenario_5 :
  pickNextNode parseISO newYear2024 [recordD; recordE]
  = mkResult (Some (node recordD)) (Some "new-available").
Proof. vm_compute. reflexivity. Qed.

(** A due review wins over a fresh available node of lower familiarity,
    and the earlier of two due reviews is taken. *)
Example pickNextNode_due_first :
  pickNextNode parseISO newYear2024 [recordLate; recordFresh; recordEarly]
  = mkResult (Some (node recordEarly)) (Some "due-review").
Proof. vm_compute. reflexivity. Qed.

Lemma pickNextNode_due_review_witness :
  exists pre r post t,
    [recordLate; recordFresh; recordEarly] = pre ++ r :: post
    /\ dueAt parseISO newYear2024 r t
    /\ pickNextNode parseISO newYear2024 [recordLate; recordFresh; recordEarly]
       = mkResult (Some (node r)) (Some "due-review").
Proof.
  destruct (pickNextNode_due_review parseISO newYear2024
              [recordLate; recordFresh; recordEarly])
    as (pre & r & post & t & Hsplit & Hdue & Hpick & _).
  - exists recordLate, (utc 2023 12 30 0 0 0). split; [left|].
    split; [discriminate|].
    exists "2023-12-30T00:00:00.000Z". repeat split. vm_compute. discriminate.
  - exists pre, r, post, t. split; [assumption | split; assumption].
Defined.


(** A missing [created] counts as instant 0 and so comes first. *)
Example pickNextNode_undated_first :
  pickNextNode parseISO newYear2024 [recordJune; recordUndated]
  = mkResult (Some (node recordUndated)) (Some "new-available").
Proof. vm_compute. reflexivity. Qed.

Lemma pickNextNode_never_locked_witness :
  resultNode (pickNextNode parseISO newYear2024 [recordD; recordE])
  = Some (node recordD)
  /\ status (node recordD) <> Locked.
Proof.
  split; [reflexivity|].
  apply (pickNextNode_never_locked parseISO newYear2024 [recordD; recordE]).
  reflexivity.
Defined.

(** ** Node creation *)

Section CreationFacts.

Variable toLowerCase : string -> string.
Variable toISOString : Z -> string.

(** What [buildNodeContents] writes for a node that comes without a
    status: always [available], with the counters at zero and no review
    timestamps. *)
Lemma buildNodeData_defaults (now : Z) (input : Input.NodeInput) :
  truthy (Input.status input) = None ->
  let data := buildNodeData toLowerCase toISOString now input in
  FrontMatter.status data = "available"
  /\ FrontMatter.familiarity data = 0
  /\ FrontMatter.srs_stage data = 0
  /\ FrontMatter.last_reviewed data = None
  /\ FrontMatter.next_review data = None.
Proof. intros Hs. simpl. rewrite Hs. repeat split. Qed.

(** A status that was written is what [loadNodes] reads back, so the
    default by prerequisites applies only to a file without one. *)
Lemma loadedStatus_written (s : string) (prereqs : list string) :
  s <> "" -> loadedStatus (Some s) prereqs = normalizeStatus (Some s).
Proof.
  intros Hs. unfold loadedStatus. simpl.
  destruct (decide (s = "")); [contradiction | reflexivity].
Qed.

Lemma loadedStatus_missing (prereqs : list string) :
  loadedStatus None prereqs = if decide (length prereqs = 0%nat) then Available else Locked.
Proof. unfold loadedStatus. simpl. destruct (decide _); reflexivity. Qed.

End CreationFacts.

(** C6: a node created with one prerequisite and no status is written
    with status [available], not [locked], and is loaded back as available;
    the default that locks a node with prerequisites is the one of
    [loadNodes], which only a file without a status reaches. The counters
    are written as zero and the review timestamps as absent. *)
Theorem buildNodeData_prerequisite_not_locked :
  let data := buildNodeData asciiLower isoString newYear2024 inputWithPrerequisite in
  FrontMatter.prerequisites data = ["nix/store-basics"]
  /\ FrontMatter.status data = "available"
  /\ loadedStatus (Some (FrontMatter.status data)) (FrontMatter.prerequisites data)
     = Available
  /\ loadedStatus None (FrontMatter.prerequisites data) = Locked
  /\ FrontMatter.familiarity data = 0
  /\ FrontMatter.srs_stage data = 0
  /\ FrontMatter.last_reviewed data = None
  /\ FrontMatter.next_review data = None.
Proof. vm_compute. repeat split. Qed.

Example buildNodeData_id :
  FrontMatter.id (buildNodeData asciiLower isoString newYear2024 inputWithPrerequisite)
  = "nix/nix-derivations".
Proof. vm_compute. reflexivity. Qed.

(** * Further properties of the code *)

(** ** Review scheduler *)

Lemma intervalDays_cases (intervals : list Z) (stage : Z) :
  intervalDays intervals stage <> 0
  /\ (intervalDays intervals stage = 1 \/ intervalDays intervals stage ∈ intervals).
Proof.
  assert (Hat : forall k d, truthyNum (at_index intervals k) = Some d ->
                            d <> 0 /\ d ∈ intervals).
  { intros k d. unfold truthyNum, at_index.
    destruct (decide (k < 0)); [discriminate|].
    destruct (intervals !! Z.to_nat k) as [v|] eqn:Hv; [|discriminate].
    destruct (decide (v = 0)); [discriminate|]. intros [= <-].
    split; [assumption|]. apply list_elem_of_lookup. eauto. }
  unfold intervalDays.
  destruct (truthyNum (at_index intervals stage)) as [d|] eqn:H1.
  { destruct (Hat _ _ H1). auto. }
  destruct (truthyNum (at_index intervals (Z.of_nat (length intervals) - 1)))
    as [d|] eqn:H2.
  { destruct (Hat _ _ H2). auto. }
  split; [discriminate | left; reflexivity].
Qed.

Section SchedulerMore.

Variable toISOString : Z -> string.

(** X1: the familiarity written by a review lies in [0, 5], whatever the
    familiarity of the input node and whatever the rating. *)
Theorem scheduleReview_familiarity_in_range :
  forall (now : Z) (n : LearnNode) (rating : Rating) (intervals : list Z)
         (masteryThreshold : Z),
    0 <= familiarity (scheduleReview toISOString now n rating intervals masteryThreshold)
      <= 5.
Proof. intros. simpl. apply clamp_bounds. lia. Qed.

(** X5: four reviews rated [easy] in a row, at any instants and from any
    node, end at familiarity 5, and at status [mastered] when the
    threshold is at most 5. *)
Theorem scheduleReview_four_easy :
  forall (now1 now2 now3 now4 : Z) (n : LearnNode) (intervals : list Z)
         (masteryThreshold : Z),
    let review now m := scheduleReview toISOString now m Easy intervals masteryThreshold in
    let last := review now4 (review now3 (review now2 (review now1 n))) in
    familiarity last = 5
    /\ (masteryThreshold <= 5 -> status last = Mastered).
Proof.
  intros now1 now2 now3 now4 n intervals thr. simpl.
  assert (Hfam : clamp (clamp (clamp (clamp (familiarity n + 2) 0 5 + 2) 0 5 + 2) 0 5 + 2) 0 5 = 5).
  { unfold clamp. lia. }
  rewrite Hfam. split; [reflexivity|].
  intros Hthr. destruct (decide (thr <= 5)); [reflexivity | contradiction].
Qed.

End SchedulerMore.

Section NumberMore.

Import PrimFloat SpecFloat FloatOps FloatAxioms.

(** X2: on a non-empty interval table a review never writes a negative
    stage from a stage that is a number, and never one past the end of
    the table when it is rated [hard], [good] or [easy]; rated [again] it
    writes the stage less one whenever that is positive, whatever the
    length of the table. From a stage that is [NaN] it writes [NaN]. *)
Theorem scheduleReview_stage_in_range :
  forall (toISOString : Z -> string) (now : Z) (n next : Js.LearnNode) (rating : Rating)
         (intervals : list float) (masteryThreshold : float),
    intervals <> [] ->
    Js.scheduleReview toISOString now n rating intervals masteryThreshold = Some next ->
    (is_nan (Js.srsStage n) = true -> is_nan (Js.srsStage next) = true)
    /\ (is_nan (Js.srsStage n) = false ->
        (0 <=? Js.srsStage next)%float = true
        /\ (rating <> Again ->
            (Js.srsStage next <=? Js.ofZ (Z.of_nat (length intervals) - 1))%float = true)
        /\ (rating = Again -> (0 <? Js.srsStage n - 1)%float = true ->
            Js.srsStage next = (Js.srsStage n - 1)%float)).
Proof.
  intros toISOString now n next rating intervals thr Hne Hrun.
  unfold Js.scheduleReview in Hrun.
  destruct (Js.setUTCDate _ _) as [t|]; [|discriminate].
  injection Hrun as <-. cbn [Js.srsStage].
  split; [apply nextStage_nan|].
  intros Hs. apply nextStage_in_range; [assumption|].
  apply ofZ_nonneg. destruct intervals; [congruence | simpl; lia].
Qed.

Lemma scheduleReview_stage_in_range_witness :
  match Js.scheduleReview isoString newYear2024 (Js.sampleNode 2 infinity) Good
          Js.sampleIntervals 4 with
  | Some next =>
      (0 <=? Js.srsStage next)%float = true
      /\ (Js.srsStage next <=? Js.ofZ (Z.of_nat (length Js.sampleIntervals) - 1))%float = true
  | None => False
  end.
Proof.
  destruct (Js.scheduleReview isoString newYear2024 (Js.sampleNode 2 infinity) Good
              Js.sampleIntervals 4) as [next|] eqn:Hrun.
  - destruct (scheduleReview_stage_in_range isoString newYear2024
                (Js.sampleNode 2 infinity) next Good Js.sampleIntervals 4
                ltac:(discriminate) Hrun) as [_ Hin].
    destruct (Hin eq_refl) as (Hlo & Hhi & _).
    split; [assumption | apply Hhi; discriminate].
  - vm_compute in Hrun. discriminate Hrun.
Defined.

End NumberMore.

(** ** Unlock resolver *)

Lemma unlockedFrom_id (r r' : NodeRecord) :
  unlockedFrom r r' -> id (node r') = id (node r).
Proof. intros [->|[_ ->]]; reflexivity. Qed.

Lemma mapSetAll_same_ids (l l' : list NodeRecord) :
  Forall2 unlockedFrom l l' ->
  forall (m : gmap string nat) (i : nat), mapSetAll m i l' = mapSetAll m i l.
Proof.
  induction 1 as [|r r' l l' Hr _ IH]; intros m i; simpl; [reflexivity|].
  rewrite (unlockedFrom_id _ _ Hr). apply IH.
Qed.

Lemma settled_unlockedFrom (records : list NodeRecord) (masteryThreshold : Z) :
  Forall2 unlockedFrom records (settle records masteryThreshold <$> records).
Proof.
  apply Forall2_fmap_r, Forall_Forall2_diag, Forall_forall.
  intros r _. apply settle_unlockedFrom.
Qed.

(** A prerequisite check reads the same off the store after the call as
    off the collection before it. *)
Lemma snapshotUnlocks_settled (records : list NodeRecord) (masteryThreshold : Z)
    (x : NodeRecord) :
  snapshotUnlocks (settle records masteryThreshold <$> records) masteryThreshold x
  = snapshotUnlocks records masteryThreshold x.
Proof.
  unfold snapshotUnlocks, byIdOf.
  rewrite (mapSetAll_same_ids _ _ (settled_unlockedFrom records masteryThreshold)).
  f_equal. apply forallb_pointwise. intros pid.
  apply prereqMet_unlockedFrom, settled_unlockedFrom.
Qed.

Lemma settle_settled (records : list NodeRecord) (masteryThreshold : Z)
    (r : NodeRecord) :
  snapshotUnlocks records masteryThreshold (settle records masteryThreshold r) = false.
Proof.
  unfold settle. destruct (snapshotUnlocks records masteryThreshold r) eqn:Hu;
    [|assumption].
  unfold snapshotUnlocks. simpl. reflexivity.
Qed.

Lemma filter_none {A : Type} (P : A -> Prop) `{forall x, Decision (P x)} (l : list A) :
  (forall x, x ∈ l -> ~ P x) -> filter P l = [].
Proof.
  induction l as [|x l IH]; intros Hl; [reflexivity|].
  rewrite filter_cons, decide_False by (apply Hl; left).
  apply IH. intros y Hy. apply Hl. right. assumption.
Qed.

Lemma fmap_fixed {A : Type} (f : A -> A) (l : list A) :
  (forall x, x ∈ l -> f x = x) -> f <$> l = l.
Proof.
  induction l as [|x l IH]; intros Hf; [reflexivity|].
  rewrite fmap_cons, Hf by left. f_equal. apply IH.
  intros y Hy. apply Hf. right. assumption.
Qed.

(** X6: resolving twice in a row is resolving once: on the store that a
    call leaves, a second call with the same threshold changes nothing
    and returns the empty array. Unlocks cascade only after a review has
    changed a prerequisite. *)
Theorem unlockEligibleNodes_idempotent :
  forall (records : list NodeRecord) (masteryThreshold : Z),
    let store := (unlockEligibleNodes records masteryThreshold).1 in
    unlockEligibleNodes store masteryThreshold = (store, []).
Proof.
  intros records thr. simpl.
  rewrite !unlock_loop_complete. unfold resolveSnapshot. simpl.
  set (store := settle records thr <$> records).
  assert (Hfix : forall x, x ∈ store -> snapshotUnlocks store thr x = false).
  { intros x Hx. apply list_elem_of_fmap in Hx as (r & -> & _).
    unfold store. rewrite snapshotUnlocks_settled. apply settle_settled. }
  f_equal.
  - apply fmap_fixed. intros x Hx. unfold settle. rewrite Hfix by assumption.
    reflexivity.
  - apply filter_none. intros i _.
    unfold snapshotUnlocksAt. destruct (store !! i) as [x|] eqn:Hx; [|discriminate].
    rewrite Hfix; [discriminate|]. apply list_elem_of_lookup. eauto.
Qed.

Lemma prereqMet_threshold_mono (store : list NodeRecord) (byId : gmap string nat)
    (low high : Z) (pid : string) :
  low <= high ->
  prereqMet store byId high pid = true -> prereqMet store byId low pid = true.
Proof.
  intros Hle. unfold prereqMet. destruct (getNode store byId pid); [|discriminate].
  rewrite !orb_true_iff, !bool_decide_eq_true. intros [H|H]; [left; assumption | right; lia].
Qed.

(** X7: lowering the mastery threshold never locks anything out: every
    position unlocked under a threshold is unlocked under every lower
    one. *)
Theorem unlockEligibleNodes_threshold_mono :
  forall (records : list NodeRecord) (low high : Z) (i : nat),
    low <= high ->
    i ∈ (unlockEligibleNodes records high).2 ->
    i ∈ (unlockEligibleNodes records low).2.
Proof.
  intros records low high i Hle.
  rewrite !unlock_loop_complete. unfold resolveSnapshot. simpl.
  rewrite !list_elem_of_filter. intros [Hu Hin]. split; [|assumption].
  unfold snapshotUnlocksAt in *. destruct (records !! i) as [r|]; [|discriminate].
  unfold snapshotUnlocks in *. apply andb_true_iff in Hu as [Hlocked Hall].
  apply andb_true_iff. split; [assumption|].
  rewrite forallb_forall in *. intros pid Hpid.
  apply (prereqMet_threshold_mono _ _ low high); auto.
Qed.

Lemma unlockEligibleNodes_threshold_mono_witness :
  1%nat ∈ (unlockEligibleNodes [recordA; recordB] 4).2
  /\ 1%nat ∈ (unlockEligibleNodes [recordA; recordB] 0).2.
Proof.
  assert (H : 1%nat ∈ (unlockEligibleNodes [recordA; recordB] 4).2)
    by (vm_compute; left).
  split; [assumption|].
  apply (unlockEligibleNodes_threshold_mono [recordA; recordB] 0 4 1); [lia | assumption].
Defined.

Lemma omap_lookup_filter_seq (store : list NodeRecord) (P : nat -> bool) (k : nat) :
  (k <= length store)%nat ->
  omap (fun i => store !! i) (filter (fun i => P i = true) (seq 0 k))
  = (imap (fun i r => (i, r)) (take k store)) ≫= (fun p => if P p.1 then [p.2] else []).
Proof.
  induction k as [|k IH]; intros Hk.
  - rewrite take_0. reflexivity.
  - destruct (lookup_lt_is_Some_2 store k ltac:(lia)) as [r Hr].
    rewrite seq_S, filter_app, omap_app, IH by lia.
    rewrite (take_S_r _ _ _ Hr), imap_app, bind_app. f_equal.
    rewrite length_take_le by lia. simpl. rewrite Nat.add_0_r.
    rewrite filter_cons, filter_nil. destruct (P k) eqn:HP.
    + rewrite decide_True by reflexivity. simpl. rewrite Hr. reflexivity.
    + rewrite decide_False by discriminate. reflexivity.
Qed.

(** X8: the array returned by the resolver holds, in input order, the
    records that were locked with every prerequisite satisfied, each read
    back with status [available]; nothing else is returned. *)
Theorem unlockedRecords_closed_form :
  forall (records : list NodeRecord) (masteryThreshold : Z),
    unlockedRecords records masteryThreshold
    = setStatus Available
      <$> filter (fun r => snapshotUnlocks records masteryThreshold r = true) records.
Proof.
  intros records thr. unfold unlockedRecords.
  rewrite unlock_loop_complete. unfold resolveSnapshot.
  rewrite (omap_lookup_filter_seq _ (snapshotUnlocksAt records thr))
    by (rewrite length_fmap; lia).
  rewrite take_ge by (rewrite length_fmap; lia).
  unfold snapshotUnlocksAt.
  assert (Hgen : forall (l : list NodeRecord) (j : nat),
             (forall i r, l !! i = Some r -> records !! (j + i)%nat = Some r) ->
             imap (fun i r => ((j + i)%nat, r)) (settle records thr <$> l)
               ≫= (fun p => if match records !! p.1 with
                                | Some r => snapshotUnlocks records thr r
                                | None => false
                                end then [p.2] else [])
             = setStatus Available
               <$> filter (fun r => snapshotUnlocks records thr r = true) l).
  { induction l as [|x l IH]; intros j Hl; [reflexivity|].
    rewrite fmap_cons, imap_cons. simpl.
    rewrite (Hl 0%nat x eq_refl), filter_cons.
    rewrite (imap_ext _ (fun i r => ((S j + i)%nat, r)))
      by (intros; unfold compose; f_equal; lia).
    rewrite IH by (intros i r Hi; rewrite <- (Hl (S i) r Hi); f_equal; lia).
    unfold settle at 1. destruct (snapshotUnlocks records thr x) eqn:Hu.
    - rewrite decide_True by reflexivity. reflexivity.
    - rewrite decide_False by discriminate. reflexivity. }
  apply (Hgen records 0%nat). intros i r Hi. assumption.
Qed.

(** ** Next-node selector *)

Lemma head_sort_is_Some {A : Type} (comparefn : A -> A -> option Z) (l : list A) :
  l <> [] -> exists m, head (sort comparefn l) = Some m.
Proof.
  intros Hne. pose proof (length_sort comparefn l) as Hlen.
  destruct (sort comparefn l) as [|m rest]; [|eauto].
  destruct l; [congruence | discriminate].
Qed.

Section SelectorMore.

Variable parseDate : string -> option Z.

(** The three tiers of [pickNextNode], as filters of the collection. *)
Lemma elem_of_tier (s : Status) (records : list NodeRecord) (r : NodeRecord) :
  s <> Locked ->
  r ∈ filter (fun r => status (node r) = s)
        (filter (fun r => status (node r) ≠ Locked) records)
  <-> r ∈ records /\ status (node r) = s.
Proof.
  intros Hs. rewrite !list_elem_of_filter. split.
  - intros (H1 & _ & H2). auto.
  - intros (H1 & H2). rewrite H2. auto.
Qed.

(** Which tier answers, and with which element. *)
Lemma pickNextNode_cases (now : Z) (records : list NodeRecord) :
  let unlocked := filter (fun r => status (node r) ≠ Locked) records in
  let due := filter (fun r => isDue parseDate now r = true) unlocked in
  let available := filter (fun r => status (node r) = Available) unlocked in
  let inProgress := filter (fun r => status (node r) = InProgress) unlocked in
  (exists m, head (sort (byNextReview parseDate) due) = Some m
             /\ pickNextNode parseDate now records
                = mkResult (Some (node m)) (Some "due-review"))
  \/ (due = []
      /\ exists m, head (sort (byFamiliarityCreated parseDate) available) = Some m
                   /\ pickNextNode parseDate now records
                      = mkResult (Some (node m)) (Some "new-available"))
  \/ (due = [] /\ available = []
      /\ exists m, head (sort byFamiliarity inProgress) = Some m
                   /\ pickNextNode parseDate now records
                      = mkResult (Some (node m)) (Some "continue"))
  \/ (due = [] /\ available = [] /\ inProgress = []
      /\ pickNextNode parseDate now records = mkResult None None).
Proof.
  intros unlocked due available inProgress. unfold pickNextNode.
  fold unlocked. fold due. fold available. fold inProgress.
  destruct due as [|d due'] eqn:Hdue.
  2:{ left. destruct (head_sort_is_Some (byNextReview parseDate) (d :: due'))
        as [m Hm]; [discriminate|].
      exists m. rewrite Hm. auto. }
  right. destruct available as [|a available'] eqn:Hav.
  2:{ left. split; [reflexivity|].
      destruct (head_sort_is_Some (byFamiliarityCreated parseDate) (a :: available'))
        as [m Hm]; [discriminate|].
      exists m. rewrite Hm. auto. }
  right. destruct inProgress as [|p inProgress'] eqn:Hip.
  2:{ left. split; [reflexivity|]. split; [reflexivity|].
      destruct (head_sort_is_Some byFamiliarity (p :: inProgress'))
        as [m Hm]; [discriminate|].
      exists m. rewrite Hm. auto. }
  right. auto.
Qed.

Lemma no_due_iff (now : Z) (records : list NodeRecord) :
  filter (fun r => isDue parseDate now r = true)
    (filter (fun r => status (node r) ≠ Locked) records) = []
  <-> forall r t, r ∈ records -> ~ dueAt parseDate now r t.
Proof.
  split.
  - intros Hnil r t Hr Hd.
    assert (Hin : r ∈ @nil NodeRecord); [|inversion Hin].
    rewrite <- Hnil. apply elem_of_due. eauto.
  - intros Hno. apply filter_none. intros r Hr Hdue.
    assert (Hin : r ∈ filter (fun r => isDue parseDate now r = true)
                     (filter (fun r => status (node r) ≠ Locked) records)).
    { apply list_elem_of_filter. auto. }
    apply elem_of_due in Hin as (Hin & t & Ht). apply (Hno r t); assumption.
Qed.

Lemma no_tier_iff (s : Status) (records : list NodeRecord) :
  s <> Locked ->
  filter (fun r => status (node r) = s)
    (filter (fun r => status (node r) ≠ Locked) records) = []
  <-> forall r, r ∈ records -> status (node r) <> s.
Proof.
  intros Hs. split.
  - intros Hnil r Hr Hst.
    assert (Hin : r ∈ @nil NodeRecord); [|inversion Hin].
    rewrite <- Hnil. apply elem_of_tier; auto.
  - intros Hno. apply filter_none. intros r Hr Hst.
    apply list_elem_of_filter in Hr as [_ Hr]. apply (Hno r); assumption.
Qed.

(** X9: the selector answers nothing exactly when nothing is actionable:
    no record that is not locked has a review due, and no record is
    available or in progress. Then it gives no reason either. *)
Theorem pickNextNode_none_iff :
  forall (now : Z) (records : list NodeRecord),
    (resultNode (pickNextNode parseDate now records) = None
     <-> forall r, r ∈ records ->
           (forall t, ~ dueAt parseDate now r t)
           /\ status (node r) <> Available /\ status (node r) <> InProgress)
    /\ (reason (pickNextNode parseDate now records) = None
        <-> resultNode (pickNextNode parseDate now records) = None).
Proof.
  intros now records.
  destruct (pickNextNode_cases now records)
    as [(m & Hm & ->)|[(Hd & m & Hm & ->)|[(Hd & Ha & m & Hm & ->)|(Hd & Ha & Hp & ->)]]];
    simpl; (split; [|split; [discriminate || reflexivity | discriminate || reflexivity]]).
  - split; [discriminate|]. intros Hall. exfalso.
    apply head_sort_elem, elem_of_due in Hm as (Hin & t & Ht).
    destruct (Hall m Hin) as [Hno _]. apply (Hno t). assumption.
  - split; [discriminate|]. intros Hall. exfalso.
    apply head_sort_elem, elem_of_tier in Hm as (Hin & Hst); [|discriminate].
    destruct (Hall m Hin) as (_ & Hna & _). contradiction.
  - split; [discriminate|]. intros Hall. exfalso.
    apply head_sort_elem, elem_of_tier in Hm as (Hin & Hst); [|discriminate].
    destruct (Hall m Hin) as (_ & _ & Hnp). contradiction.
  - split; [|reflexivity]. intros _ r Hr.
    split; [intros t; apply (proj1 (no_due_iff now records) Hd r t Hr)|].
    split.
    + apply (proj1 (no_tier_iff Available records ltac:(discriminate)) Ha r Hr).
    + apply (proj1 (no_tier_iff InProgress records ltac:(discriminate)) Hp r Hr).
Qed.

(** X10: a node that the selector returns is the node of a record of the
    collection, and the reason tells how it was found: [due-review] for
    a record with a review due, [new-available] for an available record,
    [continue] for a record in progress. A mastered or paused node is
    returned only as a due review. *)
Theorem pickNextNode_provenance :
  forall (now : Z) (records : list NodeRecord) (n : LearnNode),
    resultNode (pickNextNode parseDate now records) = Some n ->
    exists r, r ∈ records /\ node r = n
      /\ ((reason (pickNextNode parseDate now records) = Some "due-review"
           /\ exists t, dueAt parseDate now r t)
          \/ (reason (pickNextNode parseDate now records) = Some "new-available"
              /\ status n = Available)
          \/ (reason (pickNextNode parseDate now records) = Some "continue"
              /\ status n = InProgress))
      /\ (status n = Mastered \/ status n = Paused ->
          reason (pickNextNode parseDate now records) = Some "due-review").
Proof.
  intros now records n.
  destruct (pickNextNode_cases now records)
    as [(m & Hm & ->)|[(Hd & m & Hm & ->)|[(Hd & Ha & m & Hm & ->)|(Hd & Ha & Hp & ->)]]];
    simpl; [| | |discriminate]; intros [= <-].
  - apply head_sort_elem, elem_of_due in Hm as (Hin & t & Ht).
    exists m. repeat split; [assumption | left; eauto].
  - apply head_sort_elem, elem_of_tier in Hm as (Hin & Hst); [|discriminate].
    exists m. split; [assumption|]. split; [reflexivity|].
    split; [right; left; auto|]. rewrite Hst. intros [H|H]; discriminate.
  - apply head_sort_elem, elem_of_tier in Hm as (Hin & Hst); [|discriminate].
    exists m. split; [assumption|]. split; [reflexivity|].
    split; [right; right; auto|]. rewrite Hst. intros [H|H]; discriminate.
Qed.

Lemma byFamiliarity_compare (a b : NodeRecord) :
  sortCompare byFamiliarity a b = familiarity (node a) - familiarity (node b).
Proof. reflexivity. Qed.

(** X11: with no review due and no available record, the selector
    answers [continue] with a record in progress of lowest familiarity,
    the first such in input order. *)
Theorem pickNextNode_continue :
  forall (now : Z) (records : list NodeRecord),
    (forall r t, r ∈ records -> ~ dueAt parseDate now r t) ->
    (forall r, r ∈ records -> status (node r) <> Available) ->
    (exists r, r ∈ records /\ status (node r) = InProgress) ->
    exists pre r post,
      records = pre ++ r :: post
      /\ status (node r) = InProgress
      /\ pickNextNode parseDate now records
         = mkResult (Some (node r)) (Some "continue")
      /\ (forall e, e ∈ pre -> status (node e) = InProgress ->
                    familiarity (node r) < familiarity (node e))
      /\ (forall e, e ∈ post -> status (node e) = InProgress ->
                    familiarity (node r) <= familiarity (node e)).
Proof.
  intros now records Hnodue Hnoav (r0 & Hin0 & Hst0).
  apply no_due_iff in Hnodue. apply no_tier_iff in Hnoav; [|discriminate].
  unfold pickNextNode. rewrite Hnodue, Hnoav.
  set (unlocked := filter (fun r => status (node r) ≠ Locked) records).
  set (inProgress := filter (fun r => status (node r) = InProgress) unlocked).
  destruct (head_sort_first_least byFamiliarity (fun _ => True)) with (l := inProgress)
    as (pre & m & post & Hsplit & Hhead & Hpre & Hpost).
  - intros a b d _ _ _. rewrite !byFamiliarity_compare. lia.
  - intros a b _ _. rewrite !byFamiliarity_compare. lia.
  - apply Forall_forall. auto.
  - intros Hnil. assert (Hr0 : r0 ∈ inProgress) by (apply elem_of_tier; auto; discriminate).
    rewrite Hnil in Hr0. inversion Hr0.
  - rewrite Hhead. simpl.
    destruct (filter_split _ _ _ _ _ Hsplit) as (pre1 & post1 & Hsplit1 & Hpre1 & Hpost1 & Hm1).
    destruct (filter_split _ _ _ _ _ Hsplit1) as (pre0 & post0 & Hsplit0 & Hpre0 & Hpost0 & Hm0).
    exists pre0, m, post0.
    split; [assumption|]. split; [assumption|].
    split; [destruct inProgress; [destruct pre; discriminate | reflexivity]|].
    split.
    + intros e He Hst.
      assert (He' : e ∈ pre).
      { rewrite <- Hpre1, <- Hpre0. rewrite !list_elem_of_filter.
        rewrite Hst. repeat split; [discriminate | assumption]. }
      specialize (Hpre e He'). rewrite byFamiliarity_compare in Hpre. lia.
    + intros e He Hst.
      assert (He' : e ∈ post).
      { rewrite <- Hpost1, <- Hpost0. rewrite !list_elem_of_filter.
        rewrite Hst. repeat split; [discriminate | assumption]. }
      specialize (Hpost e He'). rewrite byFamiliarity_compare in Hpost. lia.
Qed.

End SelectorMore.

(** ** Configuration *)

Lemma truthy_Some (o : option string) (s : string) :
  truthy o = Some s <-> o = Some s /\ s <> "".
Proof.
  unfold truthy. destruct o as [x|]; [|split; [discriminate | intros [H _]; discriminate]].
  destruct (decide (x = "")) as [->|Hx].
  - split; [discriminate | intros [[= <-] H]; contradiction].
  - split; [intros [= <-]; auto | intros [[= <-] _]; reflexivity].
Qed.

Lemma truthy_default_nonempty (d : string) (o : option string) :
  d <> "" -> default d (truthy o) <> "".
Proof.
  intros Hd. destruct (truthy o) as [s|] eqn:Hs; simpl; [|assumption].
  apply truthy_Some in Hs as [_ Hs]. assumption.
Qed.

Lemma truthy_nonempty (s : string) : s <> "" -> truthy (Some s) = Some s.
Proof. intros Hs. apply truthy_Some. auto. Qed.

Lemma normalizeConfig_inr (input : ConfigInput.LearnConfigInput)
    (c : Config.LearnConfig) :
  normalizeConfig input = inr c ->
  ConfigInput.libraryPath input = Some (Config.libraryPath c)
  /\ Config.libraryPath c <> ""
  /\ Config.collectionName c <> ""
  /\ Config.gitBranch c <> ""
  /\ Config.mask c <> "".
Proof.
  unfold normalizeConfig.
  destruct (truthy (ConfigInput.libraryPath input)) as [p|] eqn:Hp; [|discriminate].
  intros [= <-]. simpl. apply truthy_Some in Hp as [Hp Hne].
  repeat split; try assumption; apply truthy_default_nonempty; discriminate.
Qed.

(** X12: [normalizeConfig] throws exactly when the library path is
    missing or empty; a configuration it returns has the given library
    path and never an empty collection name, branch or mask. *)
Theorem normalizeConfig_result :
  forall input : ConfigInput.LearnConfigInput,
    (truthy (ConfigInput.libraryPath input) = None
     <-> normalizeConfig input = inl "libraryPath is required in plugin config")
    /\ forall c, normalizeConfig input = inr c ->
         ConfigInput.libraryPath input = Some (Config.libraryPath c)
         /\ Config.libraryPath c <> ""
         /\ Config.collectionName c <> ""
         /\ Config.gitBranch c <> ""
         /\ Config.mask c <> "".
Proof.
  intros input. split; [|apply normalizeConfig_inr].
  unfold normalizeConfig.
  destruct (truthy (ConfigInput.libraryPath input)); split;
    solve [discriminate | reflexivity].
Qed.

(** X13: normalizing is idempotent: a configuration that
    [normalizeConfig] returned, given back to it, is returned unchanged. *)
Theorem normalizeConfig_idempotent :
  forall (input : ConfigInput.LearnConfigInput) (c : Config.LearnConfig),
    normalizeConfig input = inr c ->
    normalizeConfig (asConfigInput c) = inr c.
Proof.
  intros input c Hc.
  destruct (normalizeConfig_inr input c Hc) as (_ & Hp & Hn & Hb & Hm).
  unfold normalizeConfig, asConfigInput. cbn -[truthy].
  rewrite !truthy_nonempty by assumption. destruct c. reflexivity.
Qed.

Lemma normalizeConfig_idempotent_witness :
  let c := Config.mkConfig "/loom" "learn" None "main" false true true "**/*.md" 0 [] in
  normalizeConfig
    (ConfigInput.mkConfigInput (Some "/loom") None None (Some "") None None None
       None (Some 0) (Some [])) = inr c
  /\ normalizeConfig (asConfigInput c) = inr c.
Proof.
  split; [reflexivity|].
  apply (normalizeConfig_idempotent
           (ConfigInput.mkConfigInput (Some "/loom") None None (Some "") None None
              None None (Some 0) (Some []))).
  reflexivity.
Defined.

Section ConfiguredScheduler.

Variable toISOString : Z -> string.

(** X14: under a configuration that names neither intervals nor a
    threshold, every review is scheduled 1, 3, 7, 14, 30, 60, 120 or 240
    days ahead, and ends mastered exactly when the familiarity it writes
    is at least 4. *)
Theorem scheduleReview_default_config :
  forall (input : ConfigInput.LearnConfigInput) (c : Config.LearnConfig)
         (now : Z) (n : LearnNode) (rating : Rating),
    ConfigInput.srsIntervals input = None ->
    ConfigInput.masteryThreshold input = None ->
    normalizeConfig input = inr c ->
    let next := scheduleReview toISOString now n rating
                  (Config.srsIntervals c) (Config.masteryThreshold c) in
    (exists days, days ∈ DEFAULT_SRS_INTERVALS
                  /\ nextReview next = Some (toISOString (now + days * msPerDay)))
    /\ (status next = Mastered <-> 4 <= familiarity next).
Proof.
  intros input c now n rating Hi Ht. unfold normalizeConfig.
  destruct (truthy (ConfigInput.libraryPath input)); [|discriminate].
  rewrite Hi, Ht. intros [= <-]. simpl. split.
  - set (stage := nextStage rating (srsStage n) 7).
    exists (intervalDays DEFAULT_SRS_INTERVALS stage). split; [|reflexivity].
    destruct (intervalDays_cases DEFAULT_SRS_INTERVALS stage) as [_ [->|H]];
      [left | assumption].
  - destruct (decide _); split; try reflexivity; try discriminate; try lia;
      intros; contradiction.
Qed.

End ConfiguredScheduler.

Lemma scheduleReview_default_config_witness :
  exists days,
    days ∈ DEFAULT_SRS_INTERVALS
    /\ nextReview (scheduleReview isoString newYear2024
                     (sampleNode "c" InProgress 2 9) Again
                     DEFAULT_SRS_INTERVALS 4)
       = Some (isoString (newYear2024 + days * msPerDay)).
Proof.
  destruct (scheduleReview_default_config isoString
              (ConfigInput.mkConfigInput (Some "/loom") None None None None None
                 None None None None)
              (Config.mkConfig "/loom" "learn" None "main" false true true "**/*.md"
                 4 DEFAULT_SRS_INTERVALS)
              newYear2024 (sampleNode "c" InProgress 2 9) Again
              eq_refl eq_refl eq_refl) as [H _].
  exact H.
Defined.

(** ** Status strings *)

(** X15: the status survives being written and read back: the string
    written for a status is read as that status, by [normalizeStatus] and
    by [loadNodes] whatever the prerequisites; every other string, and a
    missing or empty one, is read by [normalizeStatus] as [available]. *)
Theorem status_round_trip :
  forall s : Status,
    normalizeStatus (Some (statusString s)) = s
    /\ (forall prereqs, loadedStatus (Some (statusString s)) prereqs = s)
    /\ (forall str, (forall s', str <> statusString s') ->
                    normalizeStatus (Some str) = Available)
    /\ normalizeStatus None = Available
    /\ normalizeStatus (Some "") = Available.
Proof.
  intros s. split; [destruct s; reflexivity|].
  split; [intros prereqs; destruct s; reflexivity|].
  split; [|split; reflexivity].
  intros str Hstr. unfold normalizeStatus, truthy.
  destruct (decide (str = "")); [reflexivity|].
  destruct (decide (str = "locked")) as [->|_]; [destruct (Hstr Locked); reflexivity|].
  destruct (decide (str = "in-progress")) as [->|_];
    [destruct (Hstr InProgress); reflexivity|].
  destruct (decide (str = "mastered")) as [->|_]; [destruct (Hstr Mastered); reflexivity|].
  destruct (decide (str = "paused")) as [->|_]; [destruct (Hstr Paused); reflexivity|].
  reflexivity.
Qed.

(** ** Git remotes *)

Lemma truthy_head_elem (remotes : list string) (r : string) :
  truthy (head remotes) = Some r -> r ∈ remotes /\ r <> "".
Proof.
  intros H. apply truthy_Some in H as [H Hne]. split; [|assumption].
  destruct remotes as [|x rest]; [discriminate|]. injection H as ->. left.
Qed.

(** X16: the remote that [resolveGitRemote] answers is always one of the
    remotes of the repository, and not the empty name; a configured
    remote that is one of them is the answer; a configured remote that
    looks like a URL and is not one of them resolves to [origin] or to
    nothing; without remotes the answer is nothing. *)
Theorem resolveGitRemote_result :
  forall (gitRemote : option string) (remotes : list string),
    (forall r, resolveGitRemote gitRemote remotes = Some r ->
               r ∈ remotes /\ r <> "")
    /\ (forall g, truthy gitRemote = Some g -> g ∈ remotes ->
                  resolveGitRemote gitRemote remotes = Some g)
    /\ (forall g, truthy gitRemote = Some g -> g ∉ remotes ->
                  looksLikeRemoteUrl g = true ->
                  resolveGitRemote gitRemote remotes
                  = if bool_decide ("origin" ∈ remotes) then Some "origin" else None)
    /\ (remotes = [] -> resolveGitRemote gitRemote remotes = None).
Proof.
  intros gitRemote remotes. unfold resolveGitRemote.
  assert (Horigin : forall r,
             (if bool_decide ("origin" ∈ remotes) then Some "origin"
              else truthy (head remotes)) = Some r -> r ∈ remotes /\ r <> "").
  { intros r. case_bool_decide as Ho.
    - intros [= <-]. split; [assumption | discriminate].
    - apply truthy_head_elem. }
  repeat split.
  - destruct (truthy gitRemote) as [g|] eqn:Hg; [|apply Horigin; assumption].
    case_bool_decide as Hin.
    + injection H as <-. assumption.
    + destruct (looksLikeRemoteUrl g); [|apply Horigin; assumption].
      case_bool_decide; [|discriminate]. injection H as <-. assumption.
  - destruct (truthy gitRemote) as [g|] eqn:Hg; [|apply Horigin; assumption].
    case_bool_decide as Hin.
    + injection H as <-. apply truthy_Some in Hg as [_ Hg]. assumption.
    + destruct (looksLikeRemoteUrl g); [|apply Horigin; assumption].
      case_bool_decide; [|discriminate]. injection H as <-. discriminate.
  - intros g -> Hin. rewrite bool_decide_eq_true_2 by assumption. reflexivity.
  - intros g -> Hin ->. rewrite bool_decide_eq_false_2 by assumption. reflexivity.
  - intros ->. destruct (truthy gitRemote) as [g|].
    + rewrite !bool_decide_eq_false_2 by (intros H; inversion H).
      destruct (looksLikeRemoteUrl g); reflexivity.
    + rewrite bool_decide_eq_false_2 by (intros H; inversion H). reflexivity.
Qed.

Example looksLikeRemoteUrl_samples :
  looksLikeRemoteUrl "https://example.org/loom" = true
  /\ looksLikeRemoteUrl "git@example.org:me/loom" = true
  /\ looksLikeRemoteUrl "loom.git" = true
  /\ looksLikeRemoteUrl "upstream" = false.
Proof. vm_compute. repeat split. Qed.

(** ** Reviewing by id *)

(** X17: [reviewNode] throws "Node <id> not found" when no record carries
    the id; otherwise it schedules the first record that carries it, and
    the node it returns carries the id asked for. *)
Theorem reviewNode_result :
  forall (toISOString : Z -> string) (now : Z) (records : list NodeRecord)
         (intervals : list Z) (masteryThreshold : Z) (nodeId rating : string),
    ((forall r, r ∈ records -> id (node r) <> nodeId) ->
     reviewNode toISOString now records intervals masteryThreshold nodeId rating
     = inl ("Node " +:+ nodeId +:+ " not found"))
    /\ ((exists r, r ∈ records /\ id (node r) = nodeId) ->
        exists pre r post,
          records = pre ++ r :: post
          /\ id (node r) = nodeId
          /\ (forall e, e ∈ pre -> id (node e) <> nodeId)
          /\ reviewNode toISOString now records intervals masteryThreshold nodeId rating
             = inr (scheduleReview toISOString now (node r) (ratingOfString rating)
                      intervals masteryThreshold)
          /\ id (scheduleReview toISOString now (node r) (ratingOfString rating)
                   intervals masteryThreshold) = nodeId).
Proof.
  intros toISOString now records intervals thr nodeId rating. unfold reviewNode.
  destruct (list_find (fun item => id (node item) = nodeId) records)
    as [[i r]|] eqn:Hfind.
  - apply list_find_Some in Hfind as (Hi & Hid & Hfirst). split.
    + intros Hall. exfalso. apply (Hall r); [|assumption].
      apply list_elem_of_lookup. eauto.
    + intros _. exists (take i records), r, (drop (S i) records).
      split; [rewrite <- (drop_S _ _ _ Hi); symmetry; apply take_drop|].
      split; [assumption|]. split; [|split; [reflexivity | assumption]].
      intros e He. apply list_elem_of_lookup in He as [j Hj].
      rewrite lookup_take in Hj. destruct (decide (j < i)%nat) as [Hlt|]; [|discriminate].
      apply (Hfirst j e); assumption.
  - apply list_find_None in Hfind. split; [reflexivity|].
    intros (r & Hr & Hid). exfalso.
    rewrite Forall_forall in Hfind. apply (Hfind r); assumption.
Qed.

(** ** Saving and loading a node *)

Lemma truthy_idem (o : option string) : truthy (truthy o) = truthy o.
Proof.
  destruct o as [s|]; [|reflexivity]. simpl.
  destruct (decide (s = "")) as [Hs|Hs]; [reflexivity|].
  simpl. destruct (decide (s = "")); [contradiction | reflexivity].
Qed.

Section FileFacts.

Variable toLowerCase : string -> string.
Variable basename : string -> string.
Variable dirname : string -> string.
Variable trim : string -> string.
Variable toISOString : Z -> string.

Lemma loadNode_saved (now : Z) (raw : Raw.Data) (recordBody : string)
    (n : LearnNode) (content filePath : string) :
  id n <> "" -> title n <> "" ->
  loadNode toLowerCase basename dirname trim
    (saveNodeData toISOString now raw recordBody n).1 content filePath
  = mkNode (id n) (title n) (summary n) (path n) (type n) (status n) (tags n)
      (prerequisites n) (unlocks n) (clamp (familiarity n) 0 5) (srsStage n)
      (truthy (lastReviewed n)) (truthy (nextReview n))
      (Some (default (default (toISOString now) (truthy (Raw.created raw)))
               (truthy (created n))))
      (Some (toISOString now)) (trim content).
Proof.
  intros Hid Htitle. unfold loadNode, saveNodeData. cbn -[truthy loadedStatus slugify].
  rewrite !truthy_nonempty by assumption. cbn -[truthy loadedStatus].
  rewrite !truthy_idem. f_equal. destruct (status n); reflexivity.
Qed.

(** X18: a node that is saved and loaded again comes back with the same
    id, title, summary, path, type, status, tags, prerequisites, unlocks
    and stage, provided its id and title are not empty. Its familiarity
    comes back clamped into [0, 5], an empty review timestamp comes back
    as absent, [updated] is the instant of the write, and the front matter
    entries that the core does not read are written back as they were. *)
Theorem save_load_round_trip :
  forall (now : Z) (raw : Raw.Data) (recordBody : string) (n : LearnNode)
         (content filePath : string),
    id n <> "" -> title n <> "" ->
    let saved := (saveNodeData toISOString now raw recordBody n).1 in
    let m := loadNode toLowerCase basename dirname trim saved content filePath in
    id m = id n /\ title m = title n /\ summary m = summary n /\ path m = path n
    /\ type m = type n /\ status m = status n /\ tags m = tags n
    /\ prerequisites m = prerequisites n /\ unlocks m = unlocks n
    /\ srsStage m = srsStage n
    /\ familiarity m = clamp (familiarity n) 0 5
    /\ lastReviewed m = truthy (lastReviewed n)
    /\ nextReview m = truthy (nextReview n)
    /\ updated m = Some (toISOString now)
    /\ Raw.others saved = Raw.others raw.
Proof.
  intros now raw recordBody n content filePath Hid Htitle. cbv zeta.
  rewrite loadNode_saved by assumption. repeat split.
Qed.

(** X19: what a review computes survives the write: the node that
    [scheduleReview] returns, saved and loaded again, has the familiarity,
    stage, status and both review timestamps that the review gave it,
    provided the id and the title are not empty and the host never prints
    an instant as the empty string. *)
Theorem review_save_load :
  forall (now saveTime : Z) (raw : Raw.Data) (recordBody : string) (n : LearnNode)
         (rating : Rating) (intervals : list Z) (masteryThreshold : Z)
         (content filePath : string),
    id n <> "" -> title n <> "" -> (forall t, toISOString t <> "") ->
    let next := scheduleReview toISOString now n rating intervals masteryThreshold in
    let m := loadNode toLowerCase basename dirname trim
               (saveNodeData toISOString saveTime raw recordBody next).1
               content filePath in
    id m = id n
    /\ familiarity m = familiarity next
    /\ srsStage m = srsStage next
    /\ status m = status next
    /\ lastReviewed m = lastReviewed next
    /\ nextReview m = nextReview next
    /\ prerequisites m = prerequisites n.
Proof.
  intros now saveTime raw recordBody n rating intervals thr content filePath
    Hid Htitle Hiso. cbv zeta.
  rewrite loadNode_saved by assumption. cbn -[truthy clamp].
  rewrite !truthy_nonempty by apply Hiso.
  repeat split. unfold clamp. lia.
Qed.

End FileFacts.

Lemma isoString_nonempty (t : Z) : isoString t <> "".
Proof.
  unfold isoString. destruct (civilFromDays (t / msPerDay)) as [[y m] d].
  set (year := if decide (0 <= y <= 9999) then _ else _).
  destruct year; discriminate.
Qed.

Lemma save_load_round_trip_witness :
  let n := sampleNode "nix/store" InProgress 9 2 in
  let saved := (saveNodeData isoString newYear2024
                  (Raw.mkRaw None None None None None None None None None None None
                     None None None None [("aliases", "store")])
                  "" n).1 in
  familiarity (loadNode asciiLower (fun s => s) (fun s => s) (fun s => s)
                 saved "" "nodes/nix/store.md") = 5
  /\ Raw.others saved = [("aliases", "store")].
Proof.
  pose proof (save_load_round_trip asciiLower (fun s => s) (fun s => s) (fun s => s)
                isoString newYear2024
                (Raw.mkRaw None None None None None None None None None None None
                   None None None None [("aliases", "store")])
                "" (sampleNode "nix/store" InProgress 9 2) "" "nodes/nix/store.md"
                ltac:(discriminate) ltac:(discriminate))
    as (_ & _ & _ & _ & _ & _ & _ & _ & _ & _ & Hfam & _ & _ & _ & Hothers).
  split; [exact Hfam | exact Hothers].
Defined.

Lemma review_save_load_witness :
  let next := scheduleReview isoString newYear2024
                (sampleNode "nix/store" Available 2 1) Good [1; 3; 7] 4 in
  nextReview (loadNode asciiLower (fun s => s) (fun s => s) (fun s => s)
                (saveNodeData isoString (newYear2024 + 5)
                   (Raw.mkRaw None None None None None None None None None None None
                      None None None None [])
                   "" next).1 "" "nodes/nix/store.md")
  = nextReview next.
Proof.
  pose proof (review_save_load asciiLower (fun s => s) (fun s => s) (fun s => s)
                isoString newYear2024 (newYear2024 + 5)
                (Raw.mkRaw None None None None None None None None None None None
                   None None None None [])
                "" (sampleNode "nix/store" Available 2 1) Good [1; 3; 7] 4
                "" "nodes/nix/store.md"
                ltac:(discriminate) ltac:(discriminate) isoString_nonempty)
    as (_ & _ & _ & _ & _ & H & _).
  exact H.
Defined.

(** ** Comma-separated options *)

Lemma splitOn_no_separator (sep : ascii) (e : list ascii) :
  sep ∉ e -> splitOn sep e = [e].
Proof.
  induction e as [|c e IH]; intros Hsep; [reflexivity|]. simpl.
  rewrite decide_False by (intros ->; apply Hsep; left).
  rewrite IH by (intros H; apply Hsep; right; assumption). reflexivity.
Qed.

Lemma splitOn_app_separator (sep : ascii) (e tail : list ascii) :
  sep ∉ e -> splitOn sep (e ++ sep :: tail) = e :: splitOn sep tail.
Proof.
  induction e as [|c e IH]; intros Hsep; simpl.
  - rewrite decide_True by reflexivity. reflexivity.
  - rewrite decide_False by (intros ->; apply Hsep; left).
    rewrite IH by (intros H; apply Hsep; right; assumption). reflexivity.
Qed.

Lemma splitOn_joinWith (sep : ascii) (entries : list (list ascii)) :
  entries <> [] -> Forall (fun e => sep ∉ e) entries ->
  splitOn sep (joinWith sep entries) = entries.
Proof.
  induction entries as [|e rest IH]; intros Hne Hall; [congruence|].
  apply Forall_cons in Hall as [He Hrest].
  destruct rest as [|e' rest'].
  - simpl. apply splitOn_no_separator. assumption.
  - change (joinWith sep (e :: e' :: rest'))
      with (e ++ sep :: joinWith sep (e' :: rest')).
    rewrite splitOn_app_separator by assumption.
    rewrite IH by (assumption || discriminate). reflexivity.
Qed.

(** X20: [parseCsv] reads back what a join with commas wrote: for a
    non-empty list of entries that are not empty, hold no comma and are
    left alone by [trim], parsing their comma-joined string gives the
    list again, in order. *)
Theorem parseCsv_round_trip :
  forall (trim : string -> string) (entries : list string),
    entries <> [] ->
    Forall (fun e => e <> "" /\ (","%char ∉ String.list_ascii_of_string e)
                     /\ trim e = e) entries ->
    parseCsv trim
      (Some (String.string_of_list_ascii
               (joinWith "," (String.list_ascii_of_string <$> entries))))
    = entries.
Proof.
  intros trim entries Hne Hall. unfold parseCsv.
  assert (Hfilter : filter (fun entry => entry ≠ "") entries = entries).
  { clear Hne. induction Hall as [|e rest (He & _ & _) _ IH]; [reflexivity|].
    rewrite filter_cons, decide_True by assumption. f_equal. exact IH. }
  assert (Hjoin : String.string_of_list_ascii
                    (joinWith "," (String.list_ascii_of_string <$> entries)) <> "").
  { destruct entries as [|e rest]; [congruence|].
    apply Forall_cons in Hall as [(He & _ & _) _].
    destruct e as [|c e]; [congruence|].
    destruct rest; simpl; discriminate. }
  rewrite truthy_nonempty by assumption.
  rewrite String.list_ascii_of_string_of_list_ascii.
  rewrite splitOn_joinWith.
  - rewrite <- (list_fmap_compose String.list_ascii_of_string
                  String.string_of_list_ascii).
    rewrite (fmap_fixed (String.string_of_list_ascii ∘ String.list_ascii_of_string)).
    + rewrite (fmap_fixed trim).
      * exact Hfilter.
      * intros e He. rewrite Forall_forall in Hall. apply (Hall e He).
    + intros e _. apply String.string_of_list_ascii_of_string.
  - destruct entries; [congruence | discriminate].
  - apply Forall_fmap. eapply Forall_impl; [exact Hall|].
    intros e (_ & Hc & _). exact Hc.
Qed.

Example parseCsv_blanks :
  parseCsv asciiTrim (Some " nix/store , ,nix/flakes,,") = ["nix/store"; "nix/flakes"]
  /\ parseCsv asciiTrim (Some "") = []
  /\ parseCsv asciiTrim None = [].
Proof. vm_compute. repeat split. Qed.

Lemma parseCsv_round_trip_witness :
  parseCsv asciiTrim
    (Some (String.string_of_list_ascii
             (joinWith "," (String.list_ascii_of_string
                              <$> ["nix/store"; "nix/flakes"]))))
  = ["nix/store"; "nix/flakes"].
Proof.
  apply (parseCsv_round_trip asciiTrim ["nix/store"; "nix/flakes"]).
  - discriminate.
  - repeat constructor; try discriminate; vm_compute;
      intros H; repeat (apply elem_of_cons in H as [H|H]; [discriminate|]);
      inversion H.
Defined.

(** ** Slugs *)

Lemma isSlugChar_not_dash (c : ascii) : isSlugChar c = true -> c <> "-"%char.
Proof. intros H ->. discriminate. Qed.

Lemma singleDashes_app_l (a b : list ascii) : singleDashes (a ++ b) -> singleDashes a.
Proof.
  induction a as [|x a IH]; [constructor|]. simpl. intros [Hx Hrest].
  split; [|apply IH; assumption].
  intros [-> Hh]. apply Hx. split; [reflexivity|].
  destruct a; [discriminate | assumption].
Qed.

Lemma singleDashes_app_r (a b : list ascii) : singleDashes (a ++ b) -> singleDashes b.
Proof. induction a as [|x a IH]; [auto|]. simpl. intros [_ H]. auto. Qed.

Lemma dashRuns_facts (cs : list ascii) :
  forall inRun : bool,
    Forall (fun c => isSlugChar c = true \/ c = "-"%char) (dashRuns inRun cs)
    /\ singleDashes (dashRuns inRun cs)
    /\ (inRun = true -> head (dashRuns inRun cs) <> Some "-"%char).
Proof.
  induction cs as [|c rest IH]; intros inRun; simpl.
  - repeat split; [constructor | discriminate].
  - destruct (isSlugChar c) eqn:Hc.
    + destruct (IH false) as (Hall & Hsingle & _). repeat split.
      * constructor; auto.
      * intros [-> _]. discriminate.
      * assumption.
      * intros _ [= ->]. discriminate.
    + destruct (IH true) as (Hall & Hsingle & Hhead). destruct inRun.
      * repeat split; assumption.
      * repeat split.
        -- constructor; auto.
        -- intros [_ Hh]. apply Hhead; [reflexivity | assumption].
        -- assumption.
        -- discriminate.
Qed.

Lemma dashRuns_keeps (c : ascii) (cs : list ascii) :
  isSlugChar c = true -> c ∈ cs -> forall inRun, c ∈ dashRuns inRun cs.
Proof.
  intros Hc. induction cs as [|x rest IH]; intros Hin inRun; [inversion Hin|].
  simpl. apply elem_of_cons in Hin as [<-|Hin].
  - rewrite Hc. left.
  - destruct (isSlugChar x); [right; auto|].
    destruct inRun; [auto | right; auto].
Qed.

Lemma dashRuns_only_dashes (cs : list ascii) :
  Forall (fun c => isSlugChar c = false) cs ->
  forall inRun, Forall (fun c => c = "-"%char) (dashRuns inRun cs).
Proof.
  induction 1 as [|c rest Hc _ IH]; intros inRun; simpl; [constructor|].
  rewrite Hc. destruct inRun; [apply IH | constructor; [reflexivity | apply IH]].
Qed.

Lemma dropDashes_split (l : list ascii) :
  exists a, l = a ++ dropDashes l
            /\ Forall (fun c => c = "-"%char) a
            /\ head (dropDashes l) <> Some "-"%char.
Proof.
  induction l as [|c l (a & Hl & Ha & Hh)]; simpl.
  - exists []. repeat split; [constructor | discriminate].
  - destruct (decide (c = "-"%char)) as [->|Hc].
    + exists ("-"%char :: a). simpl. rewrite <- Hl. repeat split; [|assumption].
      constructor; [reflexivity | assumption].
    + exists []. repeat split; [constructor|]. simpl. congruence.
Qed.

Lemma dropDashes_only_dashes (l : list ascii) :
  Forall (fun c => c = "-"%char) l -> dropDashes l = [].
Proof.
  induction 1 as [|c l -> _ IH]; [reflexivity|]. cbn [dropDashes].
  rewrite decide_True by reflexivity. assumption.
Qed.

(** What [trimDashes] cuts off, and what it leaves at the two ends. *)
Lemma trimDashes_split (l : list ascii) :
  exists a b,
    l = a ++ trimDashes l ++ b
    /\ Forall (fun c => c = "-"%char) a /\ Forall (fun c => c = "-"%char) b
    /\ head (trimDashes l) <> Some "-"%char
    /\ last (trimDashes l) <> Some "-"%char.
Proof.
  unfold trimDashes.
  destruct (dropDashes_split l) as (a & Hl & Ha & Hh).
  destruct (dropDashes_split (reverse (dropDashes l))) as (b & Hr & Hb & Hhr).
  set (d := dropDashes l) in *. set (t := dropDashes (reverse d)) in *.
  assert (Hd : d = reverse t ++ reverse b).
  { rewrite <- reverse_app, <- Hr, reverse_involutive. reflexivity. }
  exists a, (reverse b). repeat split.
  - rewrite <- Hd. assumption.
  - assumption.
  - apply Forall_reverse. assumption.
  - destruct (reverse t) as [|x rt] eqn:Hrt; [discriminate|].
    rewrite Hd in Hh. simpl in *. assumption.
  - rewrite last_reverse. assumption.
Qed.

Section SlugFacts.

Variable toLowerCase : string -> string.

Lemma slugify_chars (value : string) :
  String.list_ascii_of_string (slugify toLowerCase value)
  = take 80 (trimDashes (dashRuns false
                           (String.list_ascii_of_string (toLowerCase value)))).
Proof. unfold slugify. apply String.list_ascii_of_string_of_list_ascii. Qed.

(** X21: a slug has at most 80 characters, all of them lower-case
    letters, digits or dashes; it does not start with a dash and has no
    two dashes in a row; and it does not end with a dash unless it was cut
    at 80 characters. *)
Theorem slugify_shape :
  forall value : string,
    let cs := String.list_ascii_of_string (slugify toLowerCase value) in
    (length cs <= 80)%nat
    /\ Forall (fun c => isSlugChar c = true \/ c = "-"%char) cs
    /\ head cs <> Some "-"%char
    /\ singleDashes cs
    /\ ((length cs < 80)%nat -> last cs <> Some "-"%char).
Proof.
  intros value. cbv zeta. rewrite slugify_chars.
  set (runs := dashRuns false (String.list_ascii_of_string (toLowerCase value))).
  destruct (dashRuns_facts (String.list_ascii_of_string (toLowerCase value)) false)
    as (Hall & Hsingle & _). fold runs in Hall, Hsingle.
  destruct (trimDashes_split runs) as (a & b & Hruns & _ & _ & Hhead & Hlast).
  set (t := trimDashes runs) in *.
  assert (Ht : Forall (fun c => isSlugChar c = true \/ c = "-"%char) t
               /\ singleDashes t).
  { rewrite Hruns in Hall, Hsingle. split.
    - apply Forall_app in Hall as [_ Hall]. apply Forall_app in Hall as [Hall _].
      assumption.
    - apply singleDashes_app_r, singleDashes_app_l in Hsingle. assumption. }
  destruct Ht as [Htall Htsingle].
  split; [rewrite length_take; lia|].
  split; [apply Forall_take; assumption|].
  split; [destruct t; assumption|].
  split; [apply (singleDashes_app_l _ (drop 80 t)); rewrite take_drop; assumption|].
  intros Hlen. rewrite length_take in Hlen.
  rewrite take_ge by lia. assumption.
Qed.

(** X22: the slug is empty exactly when the lower-cased value has no
    lower-case letter and no digit; otherwise it keeps at least one of
    them. *)
Theorem slugify_empty_iff :
  forall value : string,
    slugify toLowerCase value = ""
    <-> Forall (fun c => isSlugChar c = false)
          (String.list_ascii_of_string (toLowerCase value)).
Proof.
  intros value.
  set (cs := String.list_ascii_of_string (toLowerCase value)).
  assert (Hnil : slugify toLowerCase value = ""
                 <-> take 80 (trimDashes (dashRuns false cs)) = []).
  { unfold slugify. fold cs. split.
    - intros H. apply (f_equal String.list_ascii_of_string) in H.
      rewrite String.list_ascii_of_string_of_list_ascii in H. assumption.
    - intros ->. reflexivity. }
  rewrite Hnil. split.
  - intros Htake. apply Forall_forall. intros c Hc.
    destruct (isSlugChar c) eqn:Hslug; [|reflexivity]. exfalso.
    pose proof (dashRuns_keeps c cs Hslug Hc false) as Hin.
    destruct (trimDashes_split (dashRuns false cs)) as (a & b & Hruns & Ha & Hb & _).
    rewrite Hruns in Hin.
    assert (Hnot : forall l, Forall (fun x => x = "-"%char) l -> c ∉ l).
    { intros l Hl Hcl. rewrite Forall_forall in Hl.
      apply (isSlugChar_not_dash c Hslug). apply Hl. assumption. }
    apply elem_of_app in Hin as [Hin|Hin]; [apply (Hnot a Ha Hin)|].
    apply elem_of_app in Hin as [Hin|Hin]; [|apply (Hnot b Hb Hin)].
    destruct (trimDashes (dashRuns false cs)); [inversion Hin | discriminate].
  - intros Hnone. pose proof (dashRuns_only_dashes cs Hnone false) as Hd.
    unfold trimDashes. rewrite (dropDashes_only_dashes _ Hd). reflexivity.
Qed.

End SlugFacts.

(** A title without letters or digits gives the id "general/". *)
Example buildNodeData_empty_slug :
  FrontMatter.id
    (buildNodeData asciiLower isoString newYear2024
       (Input.mkInput "???" "body" None None None None None None None None None None))
  = "general/".
Proof. vm_compute. reflexivity. Qed.

Example slugify_cut_at_dash :
  let value := String.string_of_list_ascii
                 (replicate 79 "a"%char ++ [" "%char; "b"%char]) in
  length (String.list_ascii_of_string (slugify asciiLower value)) = 80%nat
  /\ last (String.list_ascii_of_string (slugify asciiLower value)) = Some "-"%char.
Proof. vm_compute. split; reflexivity. Qed.

(** ** Selection with positions *)

Section Positions.

Context {B : Type}.

Lemma filter_snd (P : B -> Prop) `{forall x, Decision (P x)}
    (Q : nat * B -> Prop) `{forall p, Decision (Q p)} (ps : list (nat * B)) :
  (forall p, Q p <-> P p.2) ->
  snd <$> filter Q ps = filter P (snd <$> ps).
Proof.
  intros HQ. induction ps as [|p ps IH]; [reflexivity|].
  rewrite fmap_cons, !filter_cons.
  destruct (decide (Q p)) as [Hq|Hq]; destruct (decide (P p.2)) as [Hp|Hp];
    try (exfalso; apply HQ in Hq; contradiction);
    try (exfalso; apply HQ in Hp; contradiction);
    [rewrite fmap_cons|]; rewrite IH; reflexivity.
Qed.

Lemma insertSorted_snd (comparefn : B -> B -> option Z) (x : nat * B)
    (ps : list (nat * B)) :
  snd <$> insertSorted (fun a b => comparefn a.2 b.2) x ps
  = insertSorted comparefn x.2 (snd <$> ps).
Proof.
  induction ps as [|p ps IH]; [reflexivity|]. simpl.
  change (sortCompare (fun a b : nat * B => comparefn a.2 b.2) x p)
    with (sortCompare comparefn x.2 p.2).
  destruct (decide (sortCompare comparefn x.2 p.2 <= 0)); [reflexivity|].
  rewrite fmap_cons, IH. reflexivity.
Qed.

Lemma sort_snd (comparefn : B -> B -> option Z) (ps : list (nat * B)) :
  snd <$> sort (fun a b => comparefn a.2 b.2) ps = sort comparefn (snd <$> ps).
Proof.
  induction ps as [|p ps IH]; [reflexivity|]. simpl.
  rewrite insertSorted_snd. f_equal. assumption.
Qed.

Lemma head_fmap {C : Type} (f : B -> C) (l : list B) : head (f <$> l) = f <$> head l.
Proof. destruct l; reflexivity. Qed.

End Positions.

Lemma positions_snd (records : list NodeRecord) : snd <$> positions records = records.
Proof.
  unfold positions.
  assert (Hgen : forall (f : nat -> nat) (l : list NodeRecord),
             snd <$> imap (fun i r => (f i, r)) l = l).
  { intros f l. revert f. induction l as [|r l IH]; intros f; [reflexivity|].
    rewrite imap_cons, fmap_cons. simpl. f_equal. apply (IH (f ∘ S)). }
  apply (Hgen (fun i => i)).
Qed.

Lemma elem_of_positions (records : list NodeRecord) (p : nat) (r : NodeRecord) :
  (p, r) ∈ positions records <-> records !! p = Some r.
Proof.
  unfold positions. rewrite elem_of_lookup_imap. split.
  - intros (i & y & [= -> ->] & Hy). assumption.
  - intros H. eauto.
Qed.

(** One tier of the selector, with and without positions. *)
Lemma tier_positions (records : list NodeRecord) (P : NodeRecord -> Prop)
    `{forall x, Decision (P x)} (comparefn : NodeRecord -> NodeRecord -> option Z) :
  let tierPos :=
    filter (fun p => P p.2)
      (filter (fun p => status (node p.2) ≠ Locked) (positions records)) in
  let tier := filter P (filter (fun r => status (node r) ≠ Locked) records) in
  snd <$> tierPos = tier
  /\ snd <$> head (sort (fun a b => comparefn a.2 b.2) tierPos)
     = head (sort comparefn tier)
  /\ forall p r, head (sort (fun a b => comparefn a.2 b.2) tierPos) = Some (p, r) ->
                 records !! p = Some r /\ status (node r) <> Locked /\ P r.
Proof.
  cbv zeta.
  assert (Htier : snd <$> filter (fun p => P p.2)
                    (filter (fun p => status (node p.2) ≠ Locked) (positions records))
                  = filter P (filter (fun r => status (node r) ≠ Locked) records)).
  { assert (Hun : snd <$> filter (fun p => status (node p.2) ≠ Locked)
                              (positions records)
                    = filter (fun r => status (node r) ≠ Locked) records).
    { rewrite (filter_snd (fun r => status (node r) ≠ Locked)) by reflexivity.
      rewrite positions_snd. reflexivity. }
    rewrite (filter_snd P) by reflexivity. rewrite Hun. reflexivity. }
  split; [assumption|]. split.
  - rewrite <- head_fmap, sort_snd, Htier. reflexivity.
  - intros p r Hhead. apply head_sort_elem in Hhead.
    apply list_elem_of_filter in Hhead as [HP Hhead].
    apply list_elem_of_filter in Hhead as [Hs Hhead].
    apply elem_of_positions in Hhead. auto.
Qed.

Lemma fmap_nil_iff {A C : Type} (f : A -> C) (l : list A) : f <$> l = [] <-> l = [].
Proof. destruct l; split; (reflexivity || discriminate). Qed.

Lemma option_fmap_snd_node (sel : option (nat * NodeRecord)) :
  node <$> (snd <$> sel) = (fun s => node s.2) <$> sel.
Proof. destruct sel as [[p r]|]; reflexivity. Qed.

(** [pickNextPos] selects the record whose node [pickNextNode] returns. *)
Lemma pickNextPos_spec (parseDate : string -> option Z) (now : Z)
    (records : list NodeRecord) :
  exists sel : option (nat * NodeRecord),
    pickNextPos parseDate now records
    = (fst <$> sel, reason (pickNextNode parseDate now records))
    /\ resultNode (pickNextNode parseDate now records) = (fun s => node s.2) <$> sel
    /\ forall p r, sel = Some (p, r) ->
                   records !! p = Some r /\ status (node r) <> Locked.
Proof.
  unfold pickNextPos, pickNextNode.
  destruct (tier_positions records (fun r => isDue parseDate now r = true)
              (byNextReview parseDate)) as (Hd1 & Hd2 & Hd3).
  destruct (tier_positions records (fun r => status (node r) = Available)
              (byFamiliarityCreated parseDate)) as (Ha1 & Ha2 & Ha3).
  destruct (tier_positions records (fun r => status (node r) = InProgress)
              byFamiliarity) as (Hp1 & Hp2 & Hp3).
  cbv zeta in *.
  rewrite <- Hd2, <- Ha2, <- Hp2, <- Hd1, <- Ha1, <- Hp1.
  clear Hd1 Hd2 Ha1 Ha2 Hp1 Hp2.
  remember (filter (fun p : nat * NodeRecord => isDue parseDate now p.2 = true) _)
    as duePos eqn:Ed.
  remember (filter (fun p : nat * NodeRecord => status (node p.2) = Available) _)
    as avPos eqn:Ea.
  remember (filter (fun p : nat * NodeRecord => status (node p.2) = InProgress) _)
    as ipPos eqn:Ep.
  clear Ed Ea Ep.
  destruct duePos as [|d duePos].
  2:{ eexists. split; [reflexivity|]. split; [apply option_fmap_snd_node|].
      intros p r Hsel. destruct (Hd3 p r Hsel) as (? & ? & _). auto. }
  destruct avPos as [|a avPos].
  2:{ eexists. split; [reflexivity|]. split; [apply option_fmap_snd_node|].
      intros p r Hsel. destruct (Ha3 p r Hsel) as (? & ? & _). auto. }
  destruct ipPos as [|q ipPos].
  2:{ eexists. split; [reflexivity|]. split; [apply option_fmap_snd_node|].
      intros p r Hsel. destruct (Hp3 p r Hsel) as (? & ? & _). auto. }
  exists None. split; [reflexivity|]. split; [reflexivity|].
  intros p r Hsel. discriminate.
Qed.

(** ** Picking the next node after resolving *)

Lemma omap_fmap_lookup {A C : Type} (f : A -> C) (store : list A) (l : list nat) :
  omap (fun i => f <$> store !! i) l = f <$> omap (fun i => store !! i) l.
Proof.
  induction l as [|i l IH]; [reflexivity|]. simpl.
  destruct (store !! i); simpl; [f_equal|]; exact IH.
Qed.

Lemma settled_ids (records : list NodeRecord) (masteryThreshold : Z) :
  (fun r => id (node r)) <$> (settle records masteryThreshold <$> records)
  = (fun r => id (node r)) <$> records.
Proof.
  rewrite <- list_fmap_compose. apply list_fmap_ext. intros i r _. simpl.
  apply unlockedFrom_id, settle_unlockedFrom.
Qed.

Lemma list_find_unique_id (store : list NodeRecord) (p : nat) (selected : NodeRecord) :
  NoDup ((fun r => id (node r)) <$> store) ->
  store !! p = Some selected ->
  list_find (fun item => id (node item) = id (node selected)) store
  = Some (p, selected).
Proof.
  intros Hnd Hp. apply list_find_Some. split; [assumption|]. split; [reflexivity|].
  intros j y Hj Hlt Hid.
  assert (j = p); [|lia].
  apply (NoDup_lookup _ j p (id (node selected)) Hnd).
  - rewrite list_lookup_fmap, Hj. simpl. f_equal. assumption.
  - rewrite list_lookup_fmap, Hp. reflexivity.
Qed.

Section PickNodeFacts.

Variable parseDate : string -> option Z.

(** X23: without [start], [pickNode] is the resolver followed by the
    selector on the store that the resolver leaves: it returns the
    selector's node and reason and the ids of the records just unlocked,
    and changes nothing else. *)
Theorem pickNode_without_start :
  forall (now : Z) (records : list NodeRecord) (masteryThreshold : Z),
    let store := (unlockEligibleNodes records masteryThreshold).1 in
    pickNode parseDate now records masteryThreshold false
    = (store,
       mkPick (resultNode (pickNextNode parseDate now store))
         (reason (pickNextNode parseDate now store))
         ((fun r => id (node r)) <$> unlockedRecords records masteryThreshold)).
Proof.
  intros now records thr. unfold pickNode, unlockedRecords.
  destruct (unlockEligibleNodes records thr) as [store unlocked]. simpl.
  destruct (pickNextPos_spec parseDate now store) as (sel & -> & -> & Hsel).
  assert (Hstarted : match (fst <$> sel) ≫= (fun p => store !! p) with
                     | Some _ => store
                     | None => store
                     end = store) by (destruct (_ ≫= _); reflexivity).
  rewrite Hstarted, omap_fmap_lookup. f_equal. f_equal.
  destruct sel as [[p r]|]; [|reflexivity]. simpl.
  destruct (Hsel p r eq_refl) as [-> _]. reflexivity.
Qed.

(** X24: with [start] and ids that are unique, the node that the
    selector chose is marked in progress if it was available, in the store
    and in the node returned, and is returned as it is otherwise; no other
    record changes. So the node returned is never locked and never
    available. *)
Theorem pickNode_with_start :
  forall (now : Z) (records : list NodeRecord) (masteryThreshold : Z),
    NoDup ((fun r => id (node r)) <$> records) ->
    let store := (unlockEligibleNodes records masteryThreshold).1 in
    let out := pickNode parseDate now records masteryThreshold true in
    (resultNode (pickNextNode parseDate now store) = None ->
     out.1 = store /\ pickedNode out.2 = None)
    /\ (forall n0, resultNode (pickNextNode parseDate now store) = Some n0 ->
          exists p r0,
            store !! p = Some r0 /\ node r0 = n0
            /\ ((status n0 = Available
                 /\ out.1 = <[p := setStatus InProgress r0]> store
                 /\ pickedNode out.2 = Some (node (setStatus InProgress r0)))
                \/ (status n0 <> Available /\ out.1 = store
                    /\ pickedNode out.2 = Some n0)))
    /\ (forall n, pickedNode out.2 = Some n ->
                  status n <> Locked /\ status n <> Available).
Proof.
  intros now records thr Hnd. cbv zeta.
  assert (Hstore : NoDup ((fun r => id (node r))
                            <$> (unlockEligibleNodes records thr).1)).
  { rewrite unlock_loop_complete. unfold resolveSnapshot. simpl.
    rewrite settled_ids. assumption. }
  unfold pickNode. destruct (unlockEligibleNodes records thr) as [store unlocked].
  simpl in Hstore |- *.
  destruct (pickNextPos_spec parseDate now store) as (sel & -> & -> & Hsel).
  destruct sel as [[p r0]|]; simpl.
  2:{ split; [auto|]. split; intros; discriminate. }
  destruct (Hsel p r0 eq_refl) as [Hp Hnl]. rewrite Hp.
  rewrite (list_find_unique_id store p r0 Hstore Hp).
  assert (Hlt : (p < length store)%nat) by (eapply lookup_lt_Some; eassumption).
  destruct (decide (status (node r0) = Available)) as [Hav|Hav]; simpl.
  - rewrite list_lookup_insert_eq by assumption. simpl.
    split; [discriminate|]. split.
    + intros n0 [= <-]. exists p, r0. split; [assumption|]. split; [reflexivity|].
      left. auto.
    + intros n [= <-]. simpl. split; discriminate.
  - rewrite Hp. simpl. split; [discriminate|]. split.
    + intros n0 [= <-]. exists p, r0. split; [assumption|]. split; [reflexivity|].
      right. auto.
    + intros n [= <-]. auto.
Qed.

(** X25: a locked record whose prerequisites are all satisfied is
    unlocked and counts for selection in the same call: when there is
    one, [pickNode] returns a node, with or without [start]. *)
Theorem pickNode_after_unlock :
  forall (now : Z) (records : list NodeRecord) (masteryThreshold : Z)
         (start : bool) (i : nat) (r : NodeRecord),
    records !! i = Some r ->
    status (node r) = Locked ->
    (forall pid, pid ∈ prerequisites (node r) ->
                 prereqSatisfied records masteryThreshold pid) ->
    exists n,
      pickedNode (pickNode parseDate now records masteryThreshold start).2 = Some n
      /\ (pickedReason (pickNode parseDate now records masteryThreshold start).2
          = Some "due-review"
          \/ pickedReason (pickNode parseDate now records masteryThreshold start).2
             = Some "new-available").
Proof.
  intros now records thr start i r Hi Hlocked Hsat.
  assert (Hu : snapshotUnlocks records thr r = true)
    by (apply snapshotUnlocks_spec; auto).
  unfold pickNode. rewrite unlock_loop_complete. unfold resolveSnapshot.
  set (store := settle records thr <$> records).
  assert (Hav : setStatus Available r ∈ store).
  { apply list_elem_of_lookup. exists i. unfold store.
    rewrite list_lookup_fmap, Hi. simpl. unfold settle. rewrite Hu. reflexivity. }
  destruct (pickNextPos_spec parseDate now store) as (sel & -> & Hres & Hsel).
  assert (Hwhy : exists m why,
             pickNextNode parseDate now store = mkResult (Some m) (Some why)
             /\ (why = "due-review" \/ why = "new-available")).
  { destruct (pickNextNode_cases parseDate now store)
      as [(m & _ & ->)|[(_ & m & _ & ->)|[(_ & Ha & _)|(_ & Ha & _)]]]; eauto.
    - exfalso. apply (proj1 (no_tier_iff Available store ltac:(discriminate)) Ha
                        (setStatus Available r) Hav). reflexivity.
    - exfalso. apply (proj1 (no_tier_iff Available store ltac:(discriminate)) Ha
                        (setStatus Available r) Hav). reflexivity. }
  destruct Hwhy as (m & why & Hpick & Hcase). rewrite Hpick in Hres |- *. simpl in *.
  destruct sel as [[p r0]|]; [|discriminate]. simpl.
  destruct (Hsel p r0 eq_refl) as [Hp _]. rewrite Hp.
  assert (Hsome : forall started : list NodeRecord,
             length started = length store ->
             exists n, node <$> started !! p = Some n).
  { intros started Hlen.
    destruct (lookup_lt_is_Some_2 started p) as [x Hx];
      [rewrite Hlen; eapply lookup_lt_Some; eassumption|].
    exists (node x). rewrite Hx. reflexivity. }
  match goal with
  | |- exists n, node <$> ?started !! p = Some n /\ _ =>
      destruct (Hsome started) as [n Hn];
        [|exists n; split; [exact Hn|]; destruct Hcase as [-> | ->]; auto]
  end.
  destruct start; [|reflexivity].
  destruct (list_find _ store) as [[j record]|]; [|reflexivity].
  destruct (decide _); [apply length_insert | reflexivity].
Qed.

End PickNodeFacts.

(** ** Further scenarios *)

Lemma pickNextNode_provenance_witness :
  exists r, r ∈ [recordD; recordE] /\ node r = node recordD
    /\ reason (pickNextNode parseISO newYear2024 [recordD; recordE])
       = Some "new-available".
Proof.
  destruct (pickNextNode_provenance parseISO newYear2024 [recordD; recordE]
              (node recordD) eq_refl) as (r & Hin & Hnode & _ & _).
  exists r. split; [assumption|]. split; [assumption | reflexivity].
Defined.

(** Lowest familiarity first, and the first of two equals: the node of
    familiarity 3 loses although it comes first, the mastered node of
    familiarity 0 is not considered. *)
Lemma pickNextNode_continue_witness :
  exists pre r post,
    [recordDeep; recordShallow; recordShallowToo; recordA] = pre ++ r :: post
    /\ node r = node recordShallow
    /\ status (node r) = InProgress
    /\ pickNextNode parseISO newYear2024
         [recordDeep; recordShallow; recordShallowToo; recordA]
       = mkResult (Some (node r)) (Some "continue")
    /\ (forall e, e ∈ pre -> status (node e) = InProgress ->
                  familiarity (node r) < familiarity (node e))
    /\ (forall e, e ∈ post -> status (node e) = InProgress ->
                  familiarity (node r) <= familiarity (node e)).
Proof.
  destruct (pickNextNode_continue parseISO newYear2024
              [recordDeep; recordShallow; recordShallowToo; recordA])
    as (pre & r & post & Hsplit & Hst & Hpick & Hpre & Hpost).
  - intros r t Hr (_ & s & Hs & _).
    repeat (apply elem_of_cons in Hr as [->|Hr]; [discriminate|]). inversion Hr.
  - intros r Hr.
    repeat (apply elem_of_cons in Hr as [->|Hr]; [discriminate|]). inversion Hr.
  - exists recordShallow. split; [right; left | reflexivity].
  - exists pre, r, post.
    assert (Hrun : pickNextNode parseISO newYear2024
                     [recordDeep; recordShallow; recordShallowToo; recordA]
                   = mkResult (Some (node recordShallow)) (Some "continue"))
      by (vm_compute; reflexivity).
    assert (Hnode : node r = node recordShallow)
      by (rewrite Hrun in Hpick; injection Hpick as Hnode; symmetry; exact Hnode).
    split; [assumption|]. split; [assumption|]. split; [assumption|].
    split; [assumption|]. split; assumption.
Defined.

Lemma sample_ids_unique : NoDup ((fun r => id (node r)) <$> [recordP; recordQ]).
Proof. apply (bool_decide_unpack _). vm_compute. exact I. Qed.

Example pickNode_start_scenario :
  pickNode parseISO newYear2024 [recordP; recordQ] 4 true
  = ([setStatus InProgress recordP; recordQ],
     mkPick (Some (node (setStatus InProgress recordP))) (Some "new-available") ["P"]).
Proof. vm_compute. reflexivity. Qed.

Lemma pickNode_with_start_witness :
  NoDup ((fun r => id (node r)) <$> [recordP; recordQ])
  /\ forall n,
       pickedNode (pickNode parseISO newYear2024 [recordP; recordQ] 4 true).2 = Some n ->
       status n <> Locked /\ status n <> Available.
Proof.
  split; [exact sample_ids_unique|].
  apply (pickNode_with_start parseISO newYear2024 [recordP; recordQ] 4
           sample_ids_unique).
Defined.

Lemma pickNode_after_unlock_witness :
  exists n,
    pickedNode (pickNode parseISO newYear2024 [recordP; recordQ] 4 false).2 = Some n
    /\ (pickedReason (pickNode parseISO newYear2024 [recordP; recordQ] 4 false).2
        = Some "due-review"
        \/ pickedReason (pickNode parseISO newYear2024 [recordP; recordQ] 4 false).2
           = Some "new-available").
Proof.
  apply (pickNode_after_unlock parseISO newYear2024 [recordP; recordQ] 4 false
           0%nat recordP eq_refl eq_refl).
  intros pid Hpid. inversion Hpid.
Defined.

(** ** What a loaded node looks like *)

Lemma truthy_not_empty (o : option string) : truthy o <> Some "".
Proof. intros H. apply truthy_Some in H as [_ H]. congruence. Qed.

(** X26: whatever the front matter of a file, the node loaded from it has
    a familiarity in [0, 5] and no empty review timestamp; it is locked
    exactly when the status entry is "locked", or is missing or empty
    while the file names at least one prerequisite. *)
Theorem loadNode_invariants :
  forall (toLowerCase basename dirname trim : string -> string)
         (data : Raw.Data) (content filePath : string),
    let n := loadNode toLowerCase basename dirname trim data content filePath in
    0 <= familiarity n <= 5
    /\ lastReviewed n <> Some "" /\ nextReview n <> Some ""
    /\ (status n = Locked
        <-> truthy (Raw.status data) = Some "locked"
            \/ (truthy (Raw.status data) = None
                /\ default [] (Raw.prerequisites data) <> [])).
Proof.
  intros toLowerCase basename dirname trim data content filePath.
  cbn -[truthy loadedStatus slugify].
  split.
  { unfold normalizeFamiliarity. destruct (Raw.familiarity data);
      [apply clamp_bounds|]; lia. }
  split; [apply truthy_not_empty|]. split; [apply truthy_not_empty|].
  unfold loadedStatus.
  destruct (truthy (Raw.status data)) as [s|] eqn:Hs; simpl.
  - pose proof Hs as Hs'. apply truthy_Some in Hs' as [_ Hne].
    unfold normalizeStatus. rewrite truthy_nonempty by assumption.
    destruct (decide (s = "locked")) as [->|Hl].
    + split; [auto | reflexivity].
    + split.
      * repeat (destruct (decide _); [discriminate|]). discriminate.
      * intros [[= ->]|[H _]]; [contradiction | discriminate].
  - destruct (default [] (Raw.prerequisites data)) as [|x l].
    + split; [discriminate|]. intros [H|[_ H]]; [discriminate | contradiction].
    + split; [intros _; right; split; [reflexivity | discriminate] | reflexivity].
Qed.
